(** * folders_synchronization.py: a one-way mirror of a directory tree

    A shallow embedding of [sync_folders] and [main] of
    [src/folders_synchronization.py], with the parts of [filecmp], [shutil],
    [os] and [schedule] they call, and the properties of the mirror proved
    about the embedding.

    Model.
    - A directory is an association list from entry names to nodes, in the
      order [os.listdir] returns them; a node is a regular file or a
      directory.  A file carries what the script can observe of it: its
      content, its modification time and whether its mode allows writing
      ([shutil.copy2] copies all three).  Symbolic links and special files
      are outside the model.
    - [sync_folders] reads the source tree and writes the replica tree.  The
      two are separate trees here: the run is followed on the pair (source
      directory, replica directory), each level rebuilding the replica
      directory it was given.
    - A call that fails raises: an [outcome] is either [Ok] with the state
      reached or [Raise] with the exception and the state at the point where
      it was raised.  The one item failure the model produces by itself is
      [PermissionError], when [copy2] has to overwrite a replica file whose
      mode does not allow writing.  Directories have no mode and the source
      can always be read: creating an entry and removing one do not fail,
      and [copytree] copies a whole tree or nothing.  What is proved of a
      run that raises is proved of this failure.
    - [fuel] bounds the depth of the recursion; running out of it is
      [RecursionError].  [S (depth source)] is always enough
      ([sync_folders_fuel]).
    - Time is a logical clock in seconds; it advances in [time.sleep(1)].
    - The handlers of the log are taken as set up; the log is a list of
      records beside the file system. *)

From Stdlib Require Import List String Ascii ZArith Lia.
Import ListNotations.
Local Open Scope string_scope.
Local Open Scope Z_scope.

Set Warnings "-register-all".

(** ** Files, directories *)

Record file := mkFile {
  content : string;
  mtime : Z;
  writable : bool
}.

Inductive node :=
| File (f : file)
| Dir (entries : list (string * node)).

Definition dir := list (string * node).

(** os.listdir *)
Definition listdir (d : dir) : list string := map fst d.

(** The entry of [d] called [name], if any. *)
Fixpoint lookup (name : string) (d : dir) : option node :=
  match d with
  | [] => None
  | (n, x) :: d' => if String.eqb name n then Some x else lookup name d'
  end.

(** Create or replace the entry called [name]. *)
Fixpoint put (name : string) (x : node) (d : dir) : dir :=
  match d with
  | [] => [(name, x)]
  | (n, y) :: d' => if String.eqb name n then (n, x) :: d' else (n, y) :: put name x d'
  end.

(** Unlink the entry called [name]. *)
Definition remove (name : string) (d : dir) : dir :=
  filter (fun e => negb (String.eqb name (fst e))) d.

(** os.path.exists on the result of a lookup *)
Definition exists_ (o : option node) : bool :=
  match o with Some _ => true | None => false end.

Fixpoint depth (n : node) : nat :=
  match n with
  | File _ => O
  | Dir es =>
      S ((fix deepest (l : list (string * node)) : nat :=
            match l with
            | [] => O
            | (_, x) :: l' => Nat.max (depth x) (deepest l')
            end) es)
  end.

(** ** Paths *)

Definition startswith_sep (s : string) : bool :=
  match s with String "/" _ => true | _ => false end.

Fixpoint endswith_sep (s : string) : bool :=
  match s with
  | EmptyString => false
  | String c EmptyString => Ascii.eqb c "/"
  | String _ s' => endswith_sep s'
  end.

(** posixpath.join(a, b) *)
Definition join (a b : string) : string :=
  if startswith_sep b then b
  else if orb (String.eqb a "") (endswith_sep a) then a ++ b
  else a ++ "/" ++ b.

(** ** filecmp *)

Definition DEFAULT_IGNORES : list string :=
  ["RCS"; "CVS"; "tags"; ".git"; ".hg"; ".bzr"; "_darcs"; "__pycache__"].

(** dircmp.__init__: hide = [os.curdir, os.pardir], ignore = DEFAULT_IGNORES *)
Definition hide : list string := ["."; ".."].
Definition ignore : list string := DEFAULT_IGNORES.

Definition mem (x : string) (l : list string) : bool :=
  existsb (String.eqb x) l.

(** filecmp._filter: list(filterfalse(skip.__contains__, flist)) *)
Definition _filter (flist skip : list string) : list string :=
  filter (fun x => negb (mem x skip)) flist.

(** list.sort() on names *)
Fixpoint insert_sorted (x : string) (l : list string) : list string :=
  match l with
  | [] => [x]
  | y :: l' => if String.leb x y then x :: l else y :: insert_sorted x l'
  end.

Definition sorted (l : list string) : list string :=
  fold_right insert_sorted [] l.

(** The keys of dict(zip(l, l)), in insertion order (normcase is the identity
    on POSIX). *)
Fixpoint dict_keys (l : list string) : list string :=
  match l with
  | [] => []
  | x :: l' => x :: filter (fun y => negb (String.eqb y x)) (dict_keys l')
  end.

(** filecmp._sig without the file type: (st_size, st_mtime) *)
Definition _sig (f : file) : Z * Z :=
  (Z.of_nat (String.length (content f)), mtime f).

Definition sig_eqb (s1 s2 : Z * Z) : bool :=
  andb (Z.eqb (fst s1) (fst s2)) (Z.eqb (snd s1) (snd s2)).

(** filecmp.cmp(f1, f2, shallow=True) on two regular files: equal signatures
    are taken as equal files without reading them; otherwise the sizes and
    then the contents are compared. *)
Definition cmp (f1 f2 : file) : bool :=
  let s1 := _sig f1 in
  let s2 := _sig f2 in
  if sig_eqb s1 s2 then true
  else if negb (Z.eqb (fst s1) (fst s2)) then false
  else String.eqb (content f1) (content f2).

Record comparison := mkComparison {
  left_list : list string;
  right_list : list string;
  common : list string;
  left_only : list string;
  right_only : list string;
  common_dirs : list string;
  common_files : list string;
  common_funny : list string;
  same_files : list string;
  diff_files : list string
}.

(** dircmp.phase2: the kind of a common name on both sides *)
Definition both_dirs (a b : dir) (x : string) : bool :=
  match lookup x a, lookup x b with
  | Some (Dir _), Some (Dir _) => true
  | _, _ => false
  end.

Definition both_files (a b : dir) (x : string) : bool :=
  match lookup x a, lookup x b with
  | Some (File _), Some (File _) => true
  | _, _ => false
  end.

(** filecmp.cmpfiles on one common file *)
Definition same_file (a b : dir) (x : string) : bool :=
  match lookup x a, lookup x b with
  | Some (File f1), Some (File f2) => cmp f1 f2
  | _, _ => false
  end.

(** filecmp.dircmp(a, b), phases 0 to 3.  Every attribute is computed from
    the two listings taken when the first attribute is read. *)
Definition dircmp (a b : dir) : comparison :=
  let left_list := sorted (_filter (listdir a) (hide ++ ignore)) in
  let right_list := sorted (_filter (listdir b) (hide ++ ignore)) in
  let ka := dict_keys left_list in
  let kb := dict_keys right_list in
  let common := filter (fun x => mem x kb) ka in
  let common_files := filter (both_files a b) common in
  {| left_list := left_list;
     right_list := right_list;
     common := common;
     left_only := filter (fun x => negb (mem x kb)) ka;
     right_only := filter (fun x => negb (mem x ka)) kb;
     common_dirs := filter (both_dirs a b) common;
     common_files := common_files;
     common_funny :=
       filter (fun x => negb (orb (both_dirs a b x) (both_files a b x))) common;
     same_files := filter (same_file a b) common_files;
     diff_files := filter (fun x => negb (same_file a b x)) common_files |}.

(** A name that dircmp looks at: neither hidden nor ignored. *)
Definition visible (x : string) : bool := negb (mem x (hide ++ ignore)).

Definition keys (d : dir) : list string :=
  dict_keys (sorted (_filter (listdir d) (hide ++ ignore))).

(** The names of the first loop: absent from the replica, or a file on both
    sides. *)
Definition to_copy (a b : dir) : list string :=
  left_only (dircmp a b) ++ diff_files (dircmp a b).

(** ** Exceptions, log, state *)

Inductive exn :=
| PermissionError
| FileExistsError
| FileNotFoundError
| IsADirectoryError
| NotADirectoryError
| RecursionError.

(** One line of the log: logging.info(msg), logging.error(msg) *)
Inductive record :=
| INFO (msg : string)
| ERROR (msg : string).

(** What a run acts on: the replica directory and the log. *)
Record state := mkState {
  tree : dir;
  log : list record
}.

Inductive outcome :=
| Ok (st : state)
| Raise (e : exn) (st : state).

Definition bind (o : outcome) (k : state -> outcome) : outcome :=
  match o with
  | Ok st => k st
  | Raise e st => Raise e st
  end.

Notation "x <- o ;; k" := (bind o (fun x => k))
  (at level 100, o at next level, right associativity).

Definition state_of (o : outcome) : state :=
  match o with Ok st => st | Raise _ st => st end.

Definition info (msg : string) (st : state) : state :=
  {| tree := tree st; log := log st ++ [INFO msg] |}.

(** for x in l: body(x), stopping at the first exception *)
Fixpoint for_each (body : string -> state -> outcome) (l : list string)
    (st : state) : outcome :=
  match l with
  | [] => Ok st
  | x :: l' => st' <- body x st ;; for_each body l' st'
  end.

(** ** shutil, os *)

(** open(dst, 'wb') followed by copystat, for a destination that is not a
    directory: a new file is created, an existing one is overwritten when
    its mode allows writing. *)
Definition write_file (f : file) (name : string) (d : dir) : dir + exn :=
  match lookup name d with
  | None => inl (put name (File f) d)
  | Some (File old) =>
      if writable old then inl (put name (File f) d) else inr PermissionError
  | Some (Dir _) => inr IsADirectoryError
  end.

(** shutil.copy2(src, dst) with dst = join(replica, name): when dst is a
    directory the file is written inside it under the base name of src. *)
Definition copy2 (f : file) (name : string) (d : dir) : dir + exn :=
  match lookup name d with
  | Some (Dir inner) =>
      match write_file f name inner with
      | inl inner' => inl (put name (Dir inner') d)
      | inr e => inr e
      end
  | _ => write_file f name d
  end.

(** shutil.copytree(src, dst) with dst = join(replica, name): os.makedirs(dst)
    refuses an existing destination; every file below src is copied with
    copy2, so the new tree is the source tree. *)
Definition copytree (src : list (string * node)) (name : string) (d : dir)
    : dir + exn :=
  match lookup name d with
  | None => inl (put name (Dir src) d)
  | Some _ => inr FileExistsError
  end.

(** ** sync_folders *)

(** The body of the first loop, for one name of left_only + diff_files. *)
Definition copy_item (source replica : string) (sdir : dir) (file : string)
    (st : state) : outcome :=
  let src_path := join source file in
  let rpl_path := join replica file in
  match lookup file sdir with
  | Some (Dir sub) =>
      match copytree sub file (tree st) with
      | inl t =>
          Ok (info ("Copied directory from " ++ src_path ++ " to " ++ rpl_path)
                   {| tree := t; log := log st |})
      | inr e => Raise e st
      end
  | Some (File f) =>
      match copy2 f file (tree st) with
      | inl t =>
          Ok (info ("Copied file from " ++ src_path ++ " to " ++ rpl_path)
                   {| tree := t; log := log st |})
      | inr e => Raise e st
      end
  | None => Raise FileNotFoundError st
  end.

(** The body of the last loop, for one name of right_only. *)
Definition remove_item (replica : string) (file : string) (st : state)
    : outcome :=
  let rpl_path := join replica file in
  match lookup file (tree st) with
  | Some (Dir _) =>
      Ok (info ("Removed directory " ++ rpl_path)
               {| tree := remove file (tree st); log := log st |})
  | Some (File _) =>
      Ok (info ("Removed file " ++ rpl_path)
               {| tree := remove file (tree st); log := log st |})
  | None => Raise FileNotFoundError st
  end.

(** The state of the parent once the call on the subdirectory [sub_dir] has
    returned or raised: the subdirectory is what the call left. *)
Definition leave (sub_dir : string) (parent : dir) (o : outcome) : outcome :=
  match o with
  | Ok st => Ok {| tree := put sub_dir (Dir (tree st)) parent; log := log st |}
  | Raise e st =>
      Raise e {| tree := put sub_dir (Dir (tree st)) parent; log := log st |}
  end.

Fixpoint sync_folders (fuel : nat) (source replica : string) (sdir : dir)
    (st : state) : outcome :=
  match fuel with
  | O => Raise RecursionError st
  | S fuel' =>
      let comparison := dircmp sdir (tree st) in
      (* Copy files from source to replica and overwrite if already exist *)
      st1 <- for_each (copy_item source replica sdir)
               (left_only comparison ++ diff_files comparison) st ;;
      (* Recursively sync subdirectories *)
      st2 <- for_each
               (fun sub_dir st' =>
                  match lookup sub_dir sdir with
                  | Some (Dir ssub) =>
                      match lookup sub_dir (tree st') with
                      | Some (Dir rsub) =>
                          leave sub_dir (tree st')
                            (sync_folders fuel' (join source sub_dir)
                               (join replica sub_dir) ssub
                               {| tree := rsub; log := log st' |})
                      | Some (File _) => Raise NotADirectoryError st'
                      | None => Raise FileNotFoundError st'
                      end
                  | Some (File _) => Raise NotADirectoryError st'
                  | None => Raise FileNotFoundError st'
                  end)
               (common_dirs comparison) st1 ;;
      (* Remove files and folders not present in source *)
      for_each (remove_item replica) (right_only comparison) st2
  end.

(** The body of the second loop, for one name of common_dirs.  The call
    lists the source directory, then the replica directory; os.listdir
    raises on a path that is missing or is not a directory. *)
Definition descend (fuel : nat) (source replica : string) (sdir : dir)
    (sub_dir : string) (st : state) : outcome :=
  match lookup sub_dir sdir with
  | Some (Dir ssub) =>
      match lookup sub_dir (tree st) with
      | Some (Dir rsub) =>
          leave sub_dir (tree st)
            (sync_folders fuel (join source sub_dir) (join replica sub_dir)
               ssub {| tree := rsub; log := log st |})
      | Some (File _) => Raise NotADirectoryError st
      | None => Raise FileNotFoundError st
      end
  | Some (File _) => Raise NotADirectoryError st
  | None => Raise FileNotFoundError st
  end.

Definition raises_recursion (o : outcome) : bool :=
  match o with Raise RecursionError _ => true | _ => false end.

(** The closure of a fresh comparison (dircmp.report_full_closure): what
    dircmp(source, replica) reports at this level and, through common_dirs,
    at every level below.  A finding is the path of the name from the two
    roots. *)
Inductive finding :=
| Left_only (path : list string)
| Right_only (path : list string)
| Differing (path : list string)
| Funny (path : list string).

Fixpoint full_closure (fuel : nat) (at_ : list string) (sdir rdir : dir)
    : list finding :=
  match fuel with
  | O => []
  | S fuel' =>
      let comparison := dircmp sdir rdir in
      map (fun x => Left_only (at_ ++ [x])%list) (left_only comparison)
      ++ map (fun x => Right_only (at_ ++ [x])%list) (right_only comparison)
      ++ map (fun x => Differing (at_ ++ [x])%list) (diff_files comparison)
      ++ map (fun x => Funny (at_ ++ [x])%list) (common_funny comparison)
      ++ flat_map
           (fun x =>
              match lookup x sdir, lookup x rdir with
              | Some (Dir ssub), Some (Dir rsub) =>
                  full_closure fuel' (at_ ++ [x])%list ssub rsub
              | _, _ => []
              end)
           (common_dirs comparison)
  end.

Definition is_funny (f : finding) : bool :=
  match f with Funny _ => true | _ => false end.

(** ** The process: main *)

(** The file system of the process is one tree; its root is also the working
    directory.  A path names a node through its components. *)
Fixpoint split_sep (s cur : string) : list string :=
  match s with
  | EmptyString => [cur]
  | String c s' =>
      if Ascii.eqb c "/" then cur :: split_sep s' ""
      else split_sep s' (cur ++ String c "")
  end.

Definition components (p : string) : list string :=
  fold_left
    (fun acc x =>
       if orb (String.eqb x "") (String.eqb x ".") then acc
       else if String.eqb x ".." then removelast acc
       else (acc ++ [x])%list)
    (split_sep p "") [].

Fixpoint lookup_path (p : list string) (n : node) : option node :=
  match p with
  | [] => Some n
  | x :: p' =>
      match n with
      | Dir d =>
          match lookup x d with
          | Some n' => lookup_path p' n'
          | None => None
          end
      | File _ => None
      end
  end.

Fixpoint store_path (p : list string) (new : node) (n : node) : node :=
  match p with
  | [] => new
  | x :: p' =>
      match n with
      | Dir d =>
          match lookup x d with
          | Some n' => Dir (put x (store_path p' new n') d)
          | None => n
          end
      | File _ => n
      end
  end.

(** The walk of os.stat along the components of a path, from the directory
    [at_]: every component, the empty one that a doubled or trailing slash
    leaves and the dots included, needs the node reached so far to be a
    directory; a name has to be an entry of it.  There are no links, so ..
    is the directory above.  The result is the path of the node reached. *)
Fixpoint walk (fs : dir) (raw at_ : list string) : option (list string) :=
  match raw with
  | [] => Some at_
  | x :: raw' =>
      match lookup_path at_ (Dir fs) with
      | Some (Dir _) =>
          if orb (String.eqb x "") (String.eqb x ".") then walk fs raw' at_
          else if String.eqb x ".." then walk fs raw' (removelast at_)
          else
            match lookup_path (at_ ++ [x]) (Dir fs) with
            | Some _ => walk fs raw' (at_ ++ [x])%list
            | None => None
            end
      | _ => None
      end
  end.

(** os.path.exists: os.stat succeeds.  The empty path names nothing. *)
Definition os_path_exists (root : dir) (p : string) : bool :=
  if String.eqb p "" then false
  else
    match walk root (split_sep p "") [] with
    | Some _ => true
    | None => false
    end.

(** What schedule.every(interval).seconds.do(...) comes to. *)
Inductive registration :=
| Registered (next : Z)   (* the job is due at [next] *)
| Refused (msg : string)  (* OverflowError, with str(e) *)
| Unsettled.              (* outside what is modelled *)

(** The range of datetime and of timedelta, in seconds: 0001-01-01 00:00:00
    and 9999-12-31 23:59:59 from the epoch, and 999999999 days 23:59:59. *)
Definition datetime_min : Z := -62135596800.
Definition datetime_max : Z := 253402300799.
Definition timedelta_max : Z := 86399999999999.

(** Job._schedule_next_run at the time [now] of datetime.datetime.now(): the
    job is due one period from now, and a date past the range of datetime
    is an OverflowError.  For an interval of at least one second every
    release of schedule agrees on this.  Below one second the releases
    differ (1.2.2 does not return for 0), and above the range of timedelta
    the text of the error is another: both are left unsettled, as is a
    clock outside the range of datetime. *)
Definition every_seconds_do (interval now : Z) : registration :=
  if orb (Z.ltb now datetime_min) (Z.ltb datetime_max now) then Unsettled
  else if Z.ltb interval 1 then Unsettled
  else if Z.ltb timedelta_max interval then Unsettled
  else if Z.ltb datetime_max (now + interval)
       then Refused "date value out of range"
  else Registered (now + interval).

Inductive status :=
| Scheduling              (* inside while True *)
| Exited (code : Z)       (* SystemExit *)
| Crashed (e : exn)       (* an exception left main: traceback, status 1 *)
| Registering.            (* in the call of line 58, see [Unsettled] *)

Definition exit_status (s : status) : option Z :=
  match s with
  | Scheduling => None
  | Exited code => Some code
  | Crashed _ => Some 1
  | Registering => None
  end.

Record process := mkProcess {
  stat : status;
  clock : Z;                (* datetime.datetime.now(), in seconds *)
  next_run : Z;             (* of the one job of the scheduler *)
  root : dir;
  journal : list record;
  runs : nat                (* calls of sync_folders started so far *)
}.

(** The job: sync_folders(source, replica) on the file system of the process.
    dircmp lists the source first, then the replica.  The two paths have
    passed os.path.exists at the start, where the walk and the components
    name the same node ([exists_components]).  The run is followed on the
    two directories and the replica it leaves is stored back; this is what
    the calls do on the one file system when neither directory lies inside
    the other, and when both paths name the same directory. *)
Definition job (source replica : string) (fs : dir) (lg : list record)
    : outcome :=
  match lookup_path (components source) (Dir fs) with
  | None => Raise FileNotFoundError {| tree := fs; log := lg |}
  | Some (File _) => Raise NotADirectoryError {| tree := fs; log := lg |}
  | Some (Dir s) =>
      match lookup_path (components replica) (Dir fs) with
      | None => Raise FileNotFoundError {| tree := fs; log := lg |}
      | Some (File _) => Raise NotADirectoryError {| tree := fs; log := lg |}
      | Some (Dir r) =>
          let write_back (st : state) :=
            match store_path (components replica) (Dir (tree st)) (Dir fs) with
            | Dir fs' => {| tree := fs'; log := log st |}
            | File _ => {| tree := fs; log := log st |}
            end in
          match sync_folders (S (depth (Dir s))) source replica s
                  {| tree := r; log := lg |} with
          | Ok st => Ok (write_back st)
          | Raise e st => Raise e (write_back st)
          end
      end
  end.

(** main up to the while loop, once logging.basicConfig has set up the two
    handlers; [journal] is what they receive, and the log file is not a part
    of [root].  The job is registered first, inside the try: an
    OverflowError of the registration is handled like a missing directory.
    exit() is SystemExit(None): status 0, and not an Exception, so the
    handler does not see the one raised in the try. *)
Definition main (source replica : string) (interval : Z) (fs : dir) (now : Z)
    : process :=
  let started := [INFO "Starting initial synchronization."] in
  let failed (e : string) :=
    {| stat := Exited 0; clock := now; next_run := now + interval; root := fs;
       journal :=
         started ++ [ERROR ("Error synchronizing " ++ source ++ " to "
                            ++ replica ++ ": " ++ e)];
       runs := O |} in
  (* schedule.every(interval).seconds.do(sync_folders, source, replica) *)
  match every_seconds_do interval now with
  | Unsettled =>
      {| stat := Registering; clock := now; next_run := now + interval;
         root := fs; journal := started; runs := O |}
  | Refused msg => failed msg
  | Registered next =>
      if negb (os_path_exists fs source) then
        failed ("The source directory " ++ source ++ " does not exist.")
      else if negb (os_path_exists fs replica) then
        failed ("The replica directory " ++ replica ++ " does not exist.")
      else if String.eqb source replica then
        {| stat := Exited 0; clock := now; next_run := next; root := fs;
           journal :=
             started ++ [ERROR ("The folder " ++ source ++ " is identical to "
                                ++ replica)];
           runs := O |}
      else
        {| stat := Scheduling; clock := now; next_run := next; root := fs;
           journal := started; runs := O |}
  end.

(** One turn of the loop: schedule.run_pending(); time.sleep(1).  The job
    runs when it is due; a job that returns is scheduled again, [interval]
    after it returned; an exception of the job leaves run_pending and main. *)
Definition loop_iteration (source replica : string) (interval : Z)
    (p : process) : process :=
  match stat p with
  | Scheduling =>
      if Z.leb (next_run p) (clock p) then
        match job source replica (root p) (journal p) with
        | Ok st =>
            {| stat := Scheduling; clock := clock p + 1;
               next_run := clock p + interval; root := tree st;
               journal := log st; runs := S (runs p) |}
        | Raise e st =>
            {| stat := Crashed e; clock := clock p; next_run := next_run p;
               root := tree st; journal := log st; runs := S (runs p) |}
        end
      else
        {| stat := Scheduling; clock := clock p + 1; next_run := next_run p;
           root := root p; journal := journal p; runs := runs p |}
  | _ => p
  end.

(** main, followed for [n] turns of its loop. *)
Fixpoint run_main (n : nat) (source replica : string) (interval : Z)
    (fs : dir) (now : Z) : process :=
  match n with
  | O => main source replica interval fs now
  | S n' =>
      loop_iteration source replica interval
        (run_main n' source replica interval fs now)
  end.

(** ** Predicates used in the statements *)

(** Every file below the node can be opened for writing. *)
Fixpoint all_writable (n : node) : bool :=
  match n with
  | File f => writable f
  | Dir es =>
      (fix every (l : list (string * node)) : bool :=
         match l with
         | [] => true
         | (_, x) :: l' => andb (all_writable x) (every l')
         end) es
  end.


Definition is_info (r : record) : bool :=
  match r with INFO _ => true | ERROR _ => false end.

(** What a step from [st] with outcome [o] did to the log and the replica:
    it added lines to the log, all of level INFO, and a step that added none
    left the replica as it was. *)
Definition logs_changes (o : outcome) (st : state) : Prop :=
  exists new,
    log (state_of o) = (log st ++ new)%list /\
    forallb is_info new = true /\
    (new = [] -> tree (state_of o) = tree st).

(** The outcome of a step is a return, or PermissionError with [P]. *)
Definition returns_or_denied (o : outcome) (P : Prop) : Prop :=
  match o with
  | Ok _ => True
  | Raise e _ => e = PermissionError /\ P
  end.

(** A copy fails during a run: at this level, after the names [done_] of the
    first loop, or in the run on a common directory, after the directories
    [done_] of the second loop.  The state is the one in which the exception
    is raised, seen from the level of the run. *)
Inductive copy_fails :
  nat -> string -> string -> dir -> state -> exn -> state -> Prop :=
| fails_here (fuel : nat) (source replica : string) (sdir : dir)
    (st st1 st2 : state) (done_ rest : list string) (x : string) (e : exn) :
    to_copy sdir (tree st) = (done_ ++ x :: rest)%list ->
    for_each (copy_item source replica sdir) done_ st = Ok st1 ->
    copy_item source replica sdir x st1 = Raise e st2 ->
    copy_fails (S fuel) source replica sdir st e st1
| fails_below (fuel : nat) (source replica : string) (sdir : dir)
    (st st1 st2 st3 : state) (done_ rest : list string) (y : string)
    (ssub rsub : dir) (e : exn) :
    for_each (copy_item source replica sdir) (to_copy sdir (tree st)) st
    = Ok st1 ->
    common_dirs (dircmp sdir (tree st)) = (done_ ++ y :: rest)%list ->
    for_each (descend fuel source replica sdir) done_ st1 = Ok st2 ->
    lookup y sdir = Some (Dir ssub) ->
    lookup y (tree st2) = Some (Dir rsub) ->
    copy_fails fuel (join source y) (join replica y) ssub
      {| tree := rsub; log := log st2 |} e st3 ->
    copy_fails (S fuel) source replica sdir st e
      {| tree := put y (Dir (tree st3)) (tree st2); log := log st3 |}.

(** ** Trees used in the examples *)

Definition file_v1 : file := {| content := "v1"; mtime := 100; writable := true |}.
Definition file_v2 : file := {| content := "v2"; mtime := 200; writable := true |}.
Definition file_locked : file :=
  {| content := "old"; mtime := 50; writable := false |}.

(** source/x is a file, replica/x a directory that holds y. *)
Definition source_x_file : dir := [("x", File file_v1)].
Definition replica_x_dir : dir := [("x", Dir [("y", File file_v2)])].

(** replica/b.txt cannot be overwritten; c.txt differs too and stale.txt is
    only in the replica. *)
Definition source_bc : dir := [("b.txt", File file_v2); ("c.txt", File file_v2)].
Definition replica_bc : dir :=
  [("b.txt", File file_locked); ("c.txt", File file_v1);
   ("stale.txt", File file_v1)].

(** A common directory with a differing file, a stale directory and a file
    that is the same on both sides. *)
Definition source_tree : dir :=
  [("a.txt", File file_v1);
   ("dir", Dir [("b.txt", File file_v2)]);
   ("same.txt", File file_v1)].
Definition replica_tree : dir :=
  [("dir", Dir [("b.txt", File file_v1); ("old", Dir [("z", File file_v1)])]);
   ("same.txt", File file_v1);
   ("stale.txt", File file_v2)].

(** The file that cannot be overwritten is one level down. *)
Definition source_nested : dir :=
  [("a.txt", File file_v1); ("dir", Dir source_bc); ("z", Dir [])].
Definition replica_nested : dir :=
  [("dir", Dir replica_bc); ("stale.txt", File file_v1);
   ("z", Dir [("old.txt", File file_v1)])].

(** The working directory of the process in the examples. *)
Definition disk : dir :=
  [("data", Dir source_bc); ("backup", Dir replica_bc); ("mirror", Dir [])].


(** * Properties *)

(** ** Names, lookups *)

Lemma mem_In (x : string) (l : list string) : mem x l = true <-> In x l.
Proof.
  unfold mem. rewrite existsb_exists. split.
  - intros [y [Hy E]]. apply String.eqb_eq in E. now subst.
  - intros H. exists x. split; [assumption | apply String.eqb_refl].
Qed.

Lemma mem_not_In (x : string) (l : list string) : mem x l = false <-> ~ In x l.
Proof.
  rewrite <- mem_In. destruct (mem x l); split; congruence.
Qed.

Lemma lookup_put_eq (x : string) (n : node) (d : dir) :
  lookup x (put x n d) = Some n.
Proof.
  induction d as [|[y m] d IH]; simpl.
  - now rewrite String.eqb_refl.
  - destruct (String.eqb x y) eqn:E; simpl; rewrite E; auto.
Qed.

Lemma lookup_put_neq (x y : string) (n : node) (d : dir) :
  x <> y -> lookup x (put y n d) = lookup x d.
Proof.
  intros N. induction d as [|[z m] d IH]; simpl.
  - apply String.eqb_neq in N. now rewrite N.
  - destruct (String.eqb y z) eqn:E; simpl.
    + apply String.eqb_eq in E. subst z.
      apply String.eqb_neq in N. now rewrite N.
    + now rewrite IH.
Qed.

Lemma lookup_remove_eq (x : string) (d : dir) : lookup x (remove x d) = None.
Proof.
  induction d as [|[y m] d IH]; simpl; auto.
  destruct (String.eqb x y) eqn:E; simpl; auto. now rewrite E.
Qed.

Lemma lookup_remove_neq (x y : string) (d : dir) :
  x <> y -> lookup x (remove y d) = lookup x d.
Proof.
  intros N. induction d as [|[z m] d IH]; simpl; auto.
  destruct (String.eqb y z) eqn:E; simpl.
  - apply String.eqb_eq in E. subst z.
    apply String.eqb_neq in N. now rewrite N.
  - now rewrite IH.
Qed.

Lemma put_same (x : string) (n : node) (d : dir) :
  lookup x d = Some n -> put x n d = d.
Proof.
  induction d as [|[y m] d IH]; simpl; [discriminate|].
  destruct (String.eqb x y) eqn:E.
  - intros [= ->]. reflexivity.
  - intros H. now rewrite IH.
Qed.

Lemma In_listdir (x : string) (d : dir) :
  In x (listdir d) <-> lookup x d <> None.
Proof.
  induction d as [|[y m] d IH]; simpl.
  - split; [tauto | congruence].
  - destruct (String.eqb x y) eqn:E.
    + apply String.eqb_eq in E. subst. split; [congruence | auto].
    + apply String.eqb_neq in E. rewrite <- IH. split.
      * intros [H | H]; [congruence | assumption].
      * auto.
Qed.

Lemma In_insert_sorted (x y : string) (l : list string) :
  In y (insert_sorted x l) <-> y = x \/ In y l.
Proof.
  induction l as [|z l IH]; simpl.
  - intuition.
  - destruct (String.leb x z); simpl; rewrite ?IH; intuition.
Qed.

Lemma In_sorted (y : string) (l : list string) : In y (sorted l) <-> In y l.
Proof.
  induction l as [|x l IH]; simpl; [tauto|].
  rewrite In_insert_sorted, IH. intuition.
Qed.

Lemma In_dict_keys (y : string) (l : list string) :
  In y (dict_keys l) <-> In y l.
Proof.
  induction l as [|x l IH]; simpl; [tauto|].
  rewrite filter_In, IH. destruct (String.eqb y x) eqn:E.
  - apply String.eqb_eq in E. subst. intuition.
  - apply String.eqb_neq in E. simpl. intuition.
Qed.

Lemma NoDup_dict_keys (l : list string) : NoDup (dict_keys l).
Proof.
  induction l as [|x l IH]; simpl; constructor.
  - rewrite filter_In, String.eqb_refl. simpl. intros [_ H]. discriminate.
  - now apply NoDup_filter.
Qed.

Lemma In_keys (x : string) (d : dir) :
  In x (keys d) <-> visible x = true /\ lookup x d <> None.
Proof.
  unfold keys, _filter, visible.
  rewrite In_dict_keys, In_sorted, filter_In, In_listdir. tauto.
Qed.

Lemma mem_keys (x : string) (d : dir) :
  mem x (keys d) = andb (visible x) (exists_ (lookup x d)).
Proof.
  destruct (mem x (keys d)) eqn:E.
  - apply mem_In, In_keys in E. destruct E as [V L]. rewrite V.
    destruct (lookup x d); [reflexivity | congruence].
  - apply mem_not_In in E. rewrite In_keys in E.
    destruct (visible x); [|reflexivity].
    destruct (lookup x d); simpl; [|reflexivity].
    exfalso. apply E. split; congruence.
Qed.

(** ** What dircmp reports *)

Lemma In_left_only (x : string) (a b : dir) :
  In x (left_only (dircmp a b)) <->
  visible x = true /\ lookup x a <> None /\ lookup x b = None.
Proof.
  change (left_only (dircmp a b))
    with (filter (fun x => negb (mem x (keys b))) (keys a)).
  rewrite filter_In, In_keys, mem_keys.
  destruct (visible x), (lookup x b); simpl; intuition congruence.
Qed.

Lemma In_right_only (x : string) (a b : dir) :
  In x (right_only (dircmp a b)) <->
  visible x = true /\ lookup x b <> None /\ lookup x a = None.
Proof.
  change (right_only (dircmp a b))
    with (filter (fun x => negb (mem x (keys a))) (keys b)).
  rewrite filter_In, In_keys, mem_keys.
  destruct (visible x), (lookup x a); simpl; intuition congruence.
Qed.

Lemma In_common (x : string) (a b : dir) :
  In x (common (dircmp a b)) <->
  visible x = true /\ lookup x a <> None /\ lookup x b <> None.
Proof.
  change (common (dircmp a b))
    with (filter (fun x => mem x (keys b)) (keys a)).
  rewrite filter_In, In_keys, mem_keys.
  destruct (visible x), (lookup x b); simpl; intuition congruence.
Qed.

Lemma In_common_dirs (x : string) (a b : dir) :
  In x (common_dirs (dircmp a b)) <->
  visible x = true /\
  exists sa sb, lookup x a = Some (Dir sa) /\ lookup x b = Some (Dir sb).
Proof.
  change (common_dirs (dircmp a b))
    with (filter (both_dirs a b) (common (dircmp a b))).
  rewrite filter_In, In_common. unfold both_dirs.
  destruct (lookup x a) as [[?|sa]|], (lookup x b) as [[?|sb]|]; split;
    try (intros [V [? [? [? ?]]]]; discriminate);
    try (intros [[? [? ?]] ?]; discriminate);
    try (intros [[? [? ?]] ?]; congruence).
  - intros [[V _] _]. split; eauto.
  - intros [V _]. repeat split; congruence.
Qed.

Lemma In_diff_files (x : string) (a b : dir) :
  In x (diff_files (dircmp a b)) <->
  visible x = true /\
  exists f g, lookup x a = Some (File f) /\ lookup x b = Some (File g)
              /\ cmp f g = false.
Proof.
  change (diff_files (dircmp a b))
    with (filter (fun x => negb (same_file a b x))
            (filter (both_files a b) (common (dircmp a b)))).
  rewrite !filter_In, In_common. unfold both_files, same_file.
  destruct (lookup x a) as [[f|?]|], (lookup x b) as [[g|?]|]; split;
    try (intros [V [? [? [? [? ?]]]]]; discriminate);
    try (intros [[[? [? ?]] ?] ?]; discriminate);
    try (intros [[[? [? ?]] ?] ?]; congruence).
  - intros [[[V _] _] C]. split; [assumption|]. exists f, g.
    repeat split. now destruct (cmp f g).
  - intros [V [f' [g' [[= <-] [[= <-] C]]]]]. rewrite C.
    repeat split; congruence.
Qed.

Lemma In_same_files (x : string) (a b : dir) :
  In x (same_files (dircmp a b)) <->
  visible x = true /\
  exists f g, lookup x a = Some (File f) /\ lookup x b = Some (File g)
              /\ cmp f g = true.
Proof.
  change (same_files (dircmp a b))
    with (filter (same_file a b)
            (filter (both_files a b) (common (dircmp a b)))).
  rewrite !filter_In, In_common. unfold both_files, same_file.
  destruct (lookup x a) as [[f|?]|], (lookup x b) as [[g|?]|]; split;
    try (intros [V [? [? [? [? ?]]]]]; discriminate);
    try (intros [[[? [? ?]] ?] ?]; discriminate);
    try (intros [[[? [? ?]] ?] ?]; congruence).
  - intros [[[V _] _] C]. split; [assumption|]. exists f, g. auto.
  - intros [V [f' [g' [[= <-] [[= <-] C]]]]]. rewrite C.
    repeat split; congruence.
Qed.

Lemma In_common_funny (x : string) (a b : dir) :
  In x (common_funny (dircmp a b)) <->
  visible x = true /\
  ((exists f sb, lookup x a = Some (File f) /\ lookup x b = Some (Dir sb)) \/
   (exists sa g, lookup x a = Some (Dir sa) /\ lookup x b = Some (File g))).
Proof.
  change (common_funny (dircmp a b))
    with (filter (fun x => negb (orb (both_dirs a b x) (both_files a b x)))
            (common (dircmp a b))).
  rewrite filter_In, In_common. unfold both_dirs, both_files.
  destruct (lookup x a) as [[f|sa]|], (lookup x b) as [[g|sb]|]; simpl; split;
    try (intros [_ [[? [? [? ?]]]|[? [? [? ?]]]]]; discriminate);
    try (intros [[? [? ?]] ?]; discriminate);
    try (intros [[? [? ?]] ?]; congruence).
  - intros [[V _] _]. split; [assumption|]. left. eauto.
  - intros [V _]. repeat split; congruence.
  - intros [[V _] _]. split; [assumption|]. right. eauto.
  - intros [V _]. repeat split; congruence.
Qed.

Lemma NoDup_left_only (a b : dir) : NoDup (left_only (dircmp a b)).
Proof. apply NoDup_filter, NoDup_dict_keys. Qed.

Lemma NoDup_right_only (a b : dir) : NoDup (right_only (dircmp a b)).
Proof. apply NoDup_filter, NoDup_dict_keys. Qed.

Lemma NoDup_common_dirs (a b : dir) : NoDup (common_dirs (dircmp a b)).
Proof. do 2 apply NoDup_filter. apply NoDup_dict_keys. Qed.

Lemma NoDup_diff_files (a b : dir) : NoDup (diff_files (dircmp a b)).
Proof. do 3 apply NoDup_filter. apply NoDup_dict_keys. Qed.

Lemma NoDup_to_copy (a b : dir) : NoDup (to_copy a b).
Proof.
  unfold to_copy. apply NoDup_app.
  repeat split.
  - apply NoDup_left_only.
  - apply NoDup_diff_files.
  - intros x L D. apply In_left_only in L. apply In_diff_files in D.
    destruct L as [_ [_ L]]. destruct D as [_ [f [g [_ [D _]]]]]. congruence.
Qed.

(** ** Loops *)

Lemma for_each_app (body : string -> state -> outcome) (l1 l2 : list string)
    (st : state) :
  for_each body (l1 ++ l2) st
  = (st' <- for_each body l1 st ;; for_each body l2 st').
Proof.
  revert st. induction l1 as [|x l1 IH]; intros st; simpl; [reflexivity|].
  destruct (body x st); simpl; auto.
Qed.

Lemma state_of_bind (o : outcome) (k : state -> outcome) :
  state_of (bind o k)
  = match o with Ok st => state_of (k st) | Raise _ st => st end.
Proof. now destruct o. Qed.

(** A loop whose body leaves the entry [x] alone leaves it alone, whether it
    returns or raises. *)
Lemma for_each_frame (body : string -> state -> outcome) (x : string)
    (l : list string) :
  (forall y st, In y l -> y <> x ->
     lookup x (tree (state_of (body y st))) = lookup x (tree st)) ->
  ~ In x l ->
  forall st, lookup x (tree (state_of (for_each body l st))) = lookup x (tree st).
Proof.
  induction l as [|y l IH]; intros B N st; simpl; [reflexivity|].
  assert (Hy : lookup x (tree (state_of (body y st))) = lookup x (tree st)).
  { apply B; [now left | intros ->; apply N; now left]. }
  rewrite state_of_bind. destruct (body y st) as [st1|e st1]; simpl in *.
  - rewrite IH; [assumption | | ].
    + intros z s Hz. apply B. now right.
    + intros H. apply N. now right.
  - assumption.
Qed.

(** A loop of bodies that do nothing does nothing. *)
Lemma for_each_skip (body : string -> state -> outcome) (l : list string)
    (st : state) :
  (forall y, In y l -> body y st = Ok st) -> for_each body l st = Ok st.
Proof.
  induction l as [|y l IH]; intros B; simpl; [reflexivity|].
  rewrite B by now left. simpl. apply IH. intros z Hz. apply B. now right.
Qed.

Lemma for_each_ext (body1 body2 : string -> state -> outcome)
    (l : list string) :
  (forall y st, In y l -> body1 y st = body2 y st) ->
  forall st, for_each body1 l st = for_each body2 l st.
Proof.
  induction l as [|y l IH]; intros B st; simpl; [reflexivity|].
  rewrite B by now left. destruct (body2 y st); simpl; [|reflexivity].
  apply IH. intros z s Hz. apply B. now right.
Qed.

(** ** One item *)

Lemma write_file_ok (f : file) (name : string) (d d' : dir) :
  write_file f name d = inl d' -> d' = put name (File f) d.
Proof.
  unfold write_file. destruct (lookup name d) as [[old|?]|].
  - destruct (writable old); congruence.
  - discriminate.
  - congruence.
Qed.

Lemma copy2_touches (f : file) (name x : string) (d d' : dir) :
  copy2 f name d = inl d' -> x <> name -> lookup x d' = lookup x d.
Proof.
  unfold copy2. intros H N. destruct (lookup name d) as [[old|inner]|] eqn:L.
  - apply write_file_ok in H. subst. now apply lookup_put_neq.
  - destruct (write_file f name inner); [|discriminate].
    injection H as <-. now apply lookup_put_neq.
  - apply write_file_ok in H. subst. now apply lookup_put_neq.
Qed.

Lemma copy_item_frame (source replica : string) (sdir : dir) (y x : string)
    (st : state) :
  y <> x ->
  lookup x (tree (state_of (copy_item source replica sdir y st)))
  = lookup x (tree st).
Proof.
  intros N. unfold copy_item. destruct (lookup y sdir) as [[f|sub]|].
  - destruct (copy2 f y (tree st)) eqn:C; simpl; [|reflexivity].
    eapply copy2_touches; eauto.
  - unfold copytree. destruct (lookup y (tree st)); simpl; [reflexivity|].
    apply lookup_put_neq. congruence.
  - reflexivity.
Qed.

Lemma remove_item_frame (replica : string) (y x : string) (st : state) :
  y <> x ->
  lookup x (tree (state_of (remove_item replica y st))) = lookup x (tree st).
Proof.
  intros N. unfold remove_item.
  destruct (lookup y (tree st)) as [[f|sub]|]; simpl;
    try reflexivity; apply lookup_remove_neq; congruence.
Qed.

(** An item that is absent from the replica, or a file on both sides, is in
    the replica what it is in the source once it has been copied. *)
Lemma copy_item_ok (source replica : string) (sdir : dir) (x : string)
    (st st' : state) :
  lookup x (tree st) = None \/
  (exists f g, lookup x sdir = Some (File f) /\ lookup x (tree st) = Some (File g)) ->
  copy_item source replica sdir x st = Ok st' ->
  lookup x (tree st') = lookup x sdir.
Proof.
  intros P. unfold copy_item. destruct (lookup x sdir) as [[f|sub]|] eqn:S.
  - assert (W : forall d', copy2 f x (tree st) = inl d' ->
                           d' = put x (File f) (tree st)).
    { intros d'. unfold copy2. destruct P as [P | [f' [g [_ P]]]]; rewrite P;
        apply write_file_ok. }
    destruct (copy2 f x (tree st)) as [d'|e]; [|discriminate].
    intros [= <-]. simpl. rewrite (W d' eq_refl). apply lookup_put_eq.
  - unfold copytree. destruct (lookup x (tree st)); [discriminate|].
    intros [= <-]. simpl. apply lookup_put_eq.
  - discriminate.
Qed.

Lemma copy_loop_ok (source replica : string) (sdir : dir) (l : list string) :
  NoDup l ->
  forall st st',
  (forall x, In x l ->
     lookup x (tree st) = None \/
     (exists f g, lookup x sdir = Some (File f)
                  /\ lookup x (tree st) = Some (File g))) ->
  for_each (copy_item source replica sdir) l st = Ok st' ->
  forall x, In x l -> lookup x (tree st') = lookup x sdir.
Proof.
  induction 1 as [|y l Ny ND IH]; intros st st' P H x Hx; [contradiction|].
  simpl in H. destruct (copy_item source replica sdir y st) as [st1|] eqn:C;
    [|discriminate]. simpl in H.
  assert (F : forall z, z <> y -> lookup z (tree st1) = lookup z (tree st)).
  { intros z Nz.
    pose proof (copy_item_frame source replica sdir y z st) as Fz.
    rewrite C in Fz. apply Fz. congruence. }
  destruct Hx as [<- | Hx].
  - pose proof (for_each_frame (copy_item source replica sdir) y l) as Fr.
    specialize (Fr (fun z s _ Nz => copy_item_frame source replica sdir z y s Nz)
                   Ny st1).
    rewrite H in Fr. simpl in Fr. rewrite Fr.
    eapply copy_item_ok; [|exact C]. apply P. now left.
  - eapply IH; eauto. intros z Hz.
    assert (Nz : z <> y) by (intros ->; contradiction).
    rewrite (F z Nz). apply P. now right.
Qed.

Lemma remove_loop_ok (replica : string) (l : list string) :
  forall st st',
  for_each (remove_item replica) l st = Ok st' ->
  forall x, In x l -> lookup x (tree st') = None.
Proof.
  induction l as [|y l IH]; intros st st' H x Hx; [contradiction|].
  simpl in H. destruct (remove_item replica y st) as [st1|] eqn:C;
    [|discriminate]. simpl in H.
  destruct (in_dec string_dec x l) as [I | N].
  - eapply IH; eauto.
  - destruct Hx as [<- | Hx]; [|contradiction].
    pose proof (for_each_frame (remove_item replica) y l) as Fr.
    specialize (Fr (fun z s _ Nz => remove_item_frame replica z y s Nz) N st1).
    rewrite H in Fr. simpl in Fr. rewrite Fr.
    unfold remove_item in C.
    destruct (lookup y (tree st)) as [[f|sub]|]; try discriminate;
      injection C as <-; simpl; apply lookup_remove_eq.
Qed.

(** ** One level of sync_folders *)

Lemma sync_folders_S (fuel : nat) (source replica : string) (sdir : dir)
    (st : state) :
  sync_folders (S fuel) source replica sdir st
  = (st1 <- for_each (copy_item source replica sdir)
              (to_copy sdir (tree st)) st ;;
     st2 <- for_each (descend fuel source replica sdir)
              (common_dirs (dircmp sdir (tree st))) st1 ;;
     for_each (remove_item replica) (right_only (dircmp sdir (tree st))) st2).
Proof. reflexivity. Qed.

Lemma descend_frame (fuel : nat) (source replica : string) (sdir : dir)
    (y x : string) (st : state) :
  y <> x ->
  lookup x (tree (state_of (descend fuel source replica sdir y st)))
  = lookup x (tree st).
Proof.
  intros N. unfold descend.
  destruct (lookup y sdir) as [[f|ssub]|]; try reflexivity.
  destruct (lookup y (tree st)) as [[g|rsub]|]; try reflexivity.
  destruct (sync_folders _ _ _ _ _); simpl; apply lookup_put_neq; congruence.
Qed.

Lemma copy_loop_frame (source replica : string) (sdir : dir) (x : string)
    (l : list string) (st : state) :
  ~ In x l ->
  lookup x (tree (state_of (for_each (copy_item source replica sdir) l st)))
  = lookup x (tree st).
Proof.
  intros N. apply for_each_frame; [|assumption].
  intros y s _. apply copy_item_frame.
Qed.

Lemma descend_loop_frame (fuel : nat) (source replica : string) (sdir : dir)
    (x : string) (l : list string) (st : state) :
  ~ In x l ->
  lookup x (tree (state_of (for_each (descend fuel source replica sdir) l st)))
  = lookup x (tree st).
Proof.
  intros N. apply for_each_frame; [|assumption].
  intros y s _. apply descend_frame.
Qed.

Lemma remove_loop_frame (replica : string) (x : string) (l : list string)
    (st : state) :
  ~ In x l ->
  lookup x (tree (state_of (for_each (remove_item replica) l st)))
  = lookup x (tree st).
Proof.
  intros N. apply for_each_frame; [|assumption].
  intros y s _. apply remove_item_frame.
Qed.

(** A name that is in none of the three loops keeps its entry, whether the
    run returns or raises. *)
Lemma sync_folders_frame (fuel : nat) (source replica : string) (sdir : dir)
    (st : state) (x : string) :
  ~ In x (to_copy sdir (tree st)) ->
  ~ In x (common_dirs (dircmp sdir (tree st))) ->
  ~ In x (right_only (dircmp sdir (tree st))) ->
  lookup x (tree (state_of (sync_folders fuel source replica sdir st)))
  = lookup x (tree st).
Proof.
  intros N1 N2 N3. destruct fuel as [|fuel]; [reflexivity|].
  rewrite sync_folders_S.
  pose proof (copy_loop_frame source replica sdir x _ st N1) as F1.
  rewrite state_of_bind.
  destruct (for_each (copy_item source replica sdir) _ st) as [st1|e st1];
    simpl in F1; [|assumption].
  pose proof (descend_loop_frame fuel source replica sdir x _ st1 N2) as F2.
  rewrite state_of_bind.
  destruct (for_each (descend fuel source replica sdir) _ st1) as [st2|e st2];
    simpl in F2; [|congruence].
  rewrite remove_loop_frame by assumption. congruence.
Qed.

Lemma sync_folders_ok (fuel : nat) (source replica : string) (sdir : dir)
    (st st' : state) :
  sync_folders (S fuel) source replica sdir st = Ok st' ->
  exists st1 st2,
    for_each (copy_item source replica sdir) (to_copy sdir (tree st)) st
    = Ok st1 /\
    for_each (descend fuel source replica sdir)
      (common_dirs (dircmp sdir (tree st))) st1 = Ok st2 /\
    for_each (remove_item replica) (right_only (dircmp sdir (tree st))) st2
    = Ok st'.
Proof.
  rewrite sync_folders_S.
  destruct (for_each (copy_item source replica sdir) _ st) as [st1|] eqn:H1;
    simpl; [|discriminate].
  destruct (for_each (descend fuel source replica sdir) _ st1) as [st2|] eqn:H2;
    simpl; [|discriminate].
  intros H3. exists st1, st2. auto.
Qed.

Lemma to_copy_precondition (sdir rdir : dir) (x : string) :
  In x (to_copy sdir rdir) ->
  lookup x sdir <> None /\
  (lookup x rdir = None \/
   (exists f g, lookup x sdir = Some (File f) /\ lookup x rdir = Some (File g))).
Proof.
  unfold to_copy. rewrite in_app_iff, In_left_only, In_diff_files.
  intros [[_ [S R]] | [_ [f [g [S [R _]]]]]].
  - auto.
  - split; [congruence|]. right. eauto.
Qed.

Lemma to_copy_not_common_dirs (sdir rdir : dir) (x : string) :
  In x (to_copy sdir rdir) -> ~ In x (common_dirs (dircmp sdir rdir)).
Proof.
  intros H C. apply to_copy_precondition in H. apply In_common_dirs in C.
  destruct C as [_ [sa [sb [S R]]]].
  destruct H as [_ [H | [f [g [H _]]]]]; congruence.
Qed.

Lemma to_copy_not_right_only (sdir rdir : dir) (x : string) :
  In x (to_copy sdir rdir) -> ~ In x (right_only (dircmp sdir rdir)).
Proof.
  intros H C. apply to_copy_precondition in H. apply In_right_only in C.
  destruct H as [H _]. destruct C as [_ [_ C]]. contradiction.
Qed.

Lemma common_dirs_not_right_only (sdir rdir : dir) (x : string) :
  In x (common_dirs (dircmp sdir rdir)) ->
  ~ In x (right_only (dircmp sdir rdir)).
Proof.
  intros H C. apply In_common_dirs in H. apply In_right_only in C.
  destruct H as [_ [sa [sb [S R]]]]. destruct C as [_ [_ C]]. congruence.
Qed.

(** After a run that returned: what was copied is what the source has. *)
Lemma sync_folders_copied (fuel : nat) (source replica : string) (sdir : dir)
    (st st' : state) (x : string) :
  sync_folders (S fuel) source replica sdir st = Ok st' ->
  In x (to_copy sdir (tree st)) ->
  lookup x (tree st') = lookup x sdir.
Proof.
  intros H I. destruct (sync_folders_ok _ _ _ _ _ _ H) as [st1 [st2 [H1 [H2 H3]]]].
  pose proof (remove_loop_frame replica x _ st2
                (to_copy_not_right_only _ _ _ I)) as F3.
  rewrite H3 in F3. simpl in F3. rewrite F3.
  pose proof (descend_loop_frame fuel source replica sdir x _ st1
                (to_copy_not_common_dirs _ _ _ I)) as F2.
  rewrite H2 in F2. simpl in F2. rewrite F2.
  eapply copy_loop_ok; eauto using NoDup_to_copy.
  intros y Hy. now apply to_copy_precondition.
Qed.

(** What was only in the replica is gone. *)
Lemma sync_folders_removed (fuel : nat) (source replica : string) (sdir : dir)
    (st st' : state) (x : string) :
  sync_folders (S fuel) source replica sdir st = Ok st' ->
  In x (right_only (dircmp sdir (tree st))) ->
  lookup x (tree st') = None.
Proof.
  intros H I. destruct (sync_folders_ok _ _ _ _ _ _ H) as [st1 [st2 [H1 [H2 H3]]]].
  eapply remove_loop_ok; eauto.
Qed.

Lemma descend_loop_ok (fuel : nat) (source replica : string) (sdir : dir)
    (l : list string) :
  NoDup l ->
  forall st st',
  for_each (descend fuel source replica sdir) l st = Ok st' ->
  forall x, In x l ->
  exists ssub rsub lg st_sub,
    lookup x sdir = Some (Dir ssub) /\
    lookup x (tree st) = Some (Dir rsub) /\
    sync_folders fuel (join source x) (join replica x) ssub
      {| tree := rsub; log := lg |} = Ok st_sub /\
    lookup x (tree st') = Some (Dir (tree st_sub)).
Proof.
  induction 1 as [|y l Ny ND IH]; intros st st' H x Hx; [contradiction|].
  simpl in H.
  destruct (descend fuel source replica sdir y st) as [sty|] eqn:D;
    [|discriminate]. simpl in H.
  destruct Hx as [<- | Hx].
  - pose proof (descend_loop_frame fuel source replica sdir y l sty Ny) as F.
    rewrite H in F. simpl in F. rewrite F. clear F.
    unfold descend in D.
    destruct (lookup y sdir) as [[f|ssub]|]; try discriminate.
    destruct (lookup y (tree st)) as [[g|rsub]|]; try discriminate.
    destruct (sync_folders fuel _ _ ssub _) as [st_sub|] eqn:S;
      [|discriminate].
    injection D as <-. simpl.
    exists ssub, rsub, (log st), st_sub. rewrite lookup_put_eq. auto.
  - assert (Nx : y <> x) by (intros ->; contradiction).
    pose proof (descend_frame fuel source replica sdir y x st Nx) as F.
    rewrite D in F. simpl in F.
    destruct (IH sty st' H x Hx) as [ssub [rsub [lg [st_sub [A [B [C E]]]]]]].
    exists ssub, rsub, lg, st_sub. rewrite <- F. auto.
Qed.

(** A directory on both sides is what the run on it left. *)
Lemma sync_folders_descended (fuel : nat) (source replica : string)
    (sdir : dir) (st st' : state) (x : string) :
  sync_folders (S fuel) source replica sdir st = Ok st' ->
  In x (common_dirs (dircmp sdir (tree st))) ->
  exists ssub rsub lg st_sub,
    lookup x sdir = Some (Dir ssub) /\
    lookup x (tree st) = Some (Dir rsub) /\
    sync_folders fuel (join source x) (join replica x) ssub
      {| tree := rsub; log := lg |} = Ok st_sub /\
    lookup x (tree st') = Some (Dir (tree st_sub)).
Proof.
  intros H I. destruct (sync_folders_ok _ _ _ _ _ _ H) as [st1 [st2 [H1 [H2 H3]]]].
  destruct (descend_loop_ok fuel source replica sdir _
              (NoDup_common_dirs _ _) st1 st2 H2 x I)
    as [ssub [rsub [lg [st_sub [A [B [C E]]]]]]].
  exists ssub, rsub, lg, st_sub.
  pose proof (remove_loop_frame replica x _ st2
                (common_dirs_not_right_only _ _ _ I)) as F3.
  rewrite H3 in F3. simpl in F3.
  assert (N1 : ~ In x (to_copy sdir (tree st))).
  { intros T. now apply to_copy_not_common_dirs in T. }
  pose proof (copy_loop_frame source replica sdir x _ st N1) as F1.
  rewrite H1 in F1. simpl in F1.
  repeat split; congruence.
Qed.

(** The entry of a name after a run that returned, by the list the name was
    in. *)
Lemma sync_folders_entry (fuel : nat) (source replica : string) (sdir : dir)
    (st st' : state) (x : string) :
  sync_folders (S fuel) source replica sdir st = Ok st' ->
  (In x (to_copy sdir (tree st)) /\ lookup x (tree st') = lookup x sdir) \/
  (In x (common_dirs (dircmp sdir (tree st))) /\
   exists ssub rsub lg st_sub,
     lookup x sdir = Some (Dir ssub) /\
     lookup x (tree st) = Some (Dir rsub) /\
     sync_folders fuel (join source x) (join replica x) ssub
       {| tree := rsub; log := lg |} = Ok st_sub /\
     lookup x (tree st') = Some (Dir (tree st_sub))) \/
  (In x (right_only (dircmp sdir (tree st))) /\ lookup x (tree st') = None) \/
  (~ In x (to_copy sdir (tree st)) /\
   ~ In x (common_dirs (dircmp sdir (tree st))) /\
   ~ In x (right_only (dircmp sdir (tree st))) /\
   lookup x (tree st') = lookup x (tree st)).
Proof.
  intros H.
  destruct (in_dec string_dec x (to_copy sdir (tree st))) as [I1 | N1].
  { left. split; [assumption|]. eapply sync_folders_copied; eauto. }
  destruct (in_dec string_dec x (common_dirs (dircmp sdir (tree st))))
    as [I2 | N2].
  { right; left. split; [assumption|]. eapply sync_folders_descended; eauto. }
  destruct (in_dec string_dec x (right_only (dircmp sdir (tree st))))
    as [I3 | N3].
  { right; right; left. split; [assumption|].
    eapply sync_folders_removed; eauto. }
  right; right; right. repeat split; try assumption.
  pose proof (sync_folders_frame (S fuel) source replica sdir st x N1 N2 N3) as F.
  now rewrite H in F.
Qed.

(** ** The replica after a run that returned *)

Lemma nothing_in (l : list string) : (forall x, ~ In x l) -> l = [].
Proof.
  destruct l as [|x l]; [reflexivity|]. intros H. exfalso. apply (H x). now left.
Qed.

Lemma flat_map_nothing {A B : Type} (f : A -> list B) (l : list A) :
  (forall x, In x l -> f x = []) -> flat_map f l = [].
Proof.
  induction l as [|x l IH]; intros H; simpl; [reflexivity|].
  rewrite (H x) by now left. apply IH. intros y Hy. apply H. now right.
Qed.

Lemma cmp_refl (f : file) : cmp f f = true.
Proof. unfold cmp, sig_eqb. now rewrite !Z.eqb_refl. Qed.

Lemma synced_left_only (fuel : nat) (source replica : string) (sdir : dir)
    (st st' : state) :
  sync_folders (S fuel) source replica sdir st = Ok st' ->
  left_only (dircmp sdir (tree st')) = [].
Proof.
  intros H. apply nothing_in. intros x I. apply In_left_only in I.
  destruct I as [V [S R]].
  destruct (sync_folders_entry _ _ _ _ _ _ x H)
    as [[I E] | [[I [ssub [rsub [lg [st_sub [A [B [C E]]]]]]]]
       | [[I E] | [N1 [N2 [N3 E]]]]]].
  - congruence.
  - congruence.
  - apply In_right_only in I. destruct I as [_ [_ I]]. contradiction.
  - apply N1. unfold to_copy. apply in_or_app. left. apply In_left_only.
    repeat split; congruence.
Qed.

Lemma synced_right_only (fuel : nat) (source replica : string) (sdir : dir)
    (st st' : state) :
  sync_folders (S fuel) source replica sdir st = Ok st' ->
  right_only (dircmp sdir (tree st')) = [].
Proof.
  intros H. apply nothing_in. intros x I. apply In_right_only in I.
  destruct I as [V [R S]].
  destruct (sync_folders_entry _ _ _ _ _ _ x H)
    as [[I E] | [[I [ssub [rsub [lg [st_sub [A [B [C E]]]]]]]]
       | [[I E] | [N1 [N2 [N3 E]]]]]].
  - congruence.
  - congruence.
  - contradiction.
  - apply N3. apply In_right_only. repeat split; congruence.
Qed.

Lemma synced_diff_files (fuel : nat) (source replica : string) (sdir : dir)
    (st st' : state) :
  sync_folders (S fuel) source replica sdir st = Ok st' ->
  diff_files (dircmp sdir (tree st')) = [].
Proof.
  intros H. apply nothing_in. intros x I. apply In_diff_files in I.
  destruct I as [V [f [g [S [R D]]]]].
  destruct (sync_folders_entry _ _ _ _ _ _ x H)
    as [[I E] | [[I [ssub [rsub [lg [st_sub [A [B [C E]]]]]]]]
       | [[I E] | [N1 [N2 [N3 E]]]]]].
  - assert (g = f) by congruence. subst g. rewrite cmp_refl in D. discriminate.
  - congruence.
  - congruence.
  - apply N1. unfold to_copy. apply in_or_app. right. apply In_diff_files.
    split; [assumption|]. exists f, g. repeat split; congruence.
Qed.

(** A directory on both sides after the run is either the copy that
    copytree made or what the run on the subdirectory left. *)
Lemma synced_common_dirs (fuel : nat) (source replica : string) (sdir : dir)
    (st st' : state) (x : string) (ssub rsub' : dir) :
  sync_folders (S fuel) source replica sdir st = Ok st' ->
  visible x = true ->
  lookup x sdir = Some (Dir ssub) ->
  lookup x (tree st') = Some (Dir rsub') ->
  rsub' = ssub \/
  exists rsub lg st_sub,
    lookup x (tree st) = Some (Dir rsub) /\
    sync_folders fuel (join source x) (join replica x) ssub
      {| tree := rsub; log := lg |} = Ok st_sub /\
    rsub' = tree st_sub.
Proof.
  intros H V S R.
  destruct (sync_folders_entry _ _ _ _ _ _ x H)
    as [[I E] | [[I [ssub0 [rsub [lg [st_sub [A [B [C E]]]]]]]]
       | [[I E] | [N1 [N2 [N3 E]]]]]].
  - left. congruence.
  - right. exists rsub, lg, st_sub.
    assert (ssub0 = ssub) by congruence. subst ssub0.
    repeat split; congruence.
  - congruence.
  - exfalso. apply N2. apply In_common_dirs. split; [assumption|].
    exists ssub, rsub'. split; congruence.
Qed.

Lemma full_closure_S (fuel : nat) (at_ : list string) (sdir rdir : dir) :
  full_closure (S fuel) at_ sdir rdir
  = (map (fun x => Left_only (at_ ++ [x])) (left_only (dircmp sdir rdir))
     ++ map (fun x => Right_only (at_ ++ [x])) (right_only (dircmp sdir rdir))
     ++ map (fun x => Differing (at_ ++ [x])) (diff_files (dircmp sdir rdir))
     ++ map (fun x => Funny (at_ ++ [x])) (common_funny (dircmp sdir rdir))
     ++ flat_map
          (fun x =>
             match lookup x sdir, lookup x rdir with
             | Some (Dir ssub), Some (Dir rsub) =>
                 full_closure fuel (at_ ++ [x]) ssub rsub
             | _, _ => []
             end)
          (common_dirs (dircmp sdir rdir)))%list.
Proof. reflexivity. Qed.

Lemma self_left_only (d : dir) : left_only (dircmp d d) = [].
Proof. apply nothing_in. intros x I. apply In_left_only in I. tauto. Qed.

Lemma self_right_only (d : dir) : right_only (dircmp d d) = [].
Proof. apply nothing_in. intros x I. apply In_right_only in I. tauto. Qed.

Lemma self_diff_files (d : dir) : diff_files (dircmp d d) = [].
Proof.
  apply nothing_in. intros x I. apply In_diff_files in I.
  destruct I as [_ [f [g [A [B C]]]]].
  assert (g = f) by congruence. subst. rewrite cmp_refl in C. discriminate.
Qed.

Lemma self_common_funny (d : dir) : common_funny (dircmp d d) = [].
Proof.
  apply nothing_in. intros x I. apply In_common_funny in I.
  destruct I as [_ [[f [s [A B]]] | [s [g [A B]]]]]; congruence.
Qed.

(** A fresh comparison of a tree with itself reports nothing. *)
Lemma self_closure (fuel : nat) :
  forall (at_ : list string) (d : dir), full_closure fuel at_ d d = [].
Proof.
  induction fuel as [|fuel IH]; intros at_ d; [reflexivity|].
  rewrite full_closure_S.
  rewrite self_left_only, self_right_only, self_diff_files, self_common_funny.
  apply flat_map_nothing. intros x _.
  destruct (lookup x d) as [[f|sub]|]; try reflexivity. apply IH.
Qed.

Lemma converges_funny (fuel' : nat) :
  forall (fuel : nat) (source replica : string) (at_ : list string)
         (sdir : dir) (st st' : state),
  sync_folders fuel source replica sdir st = Ok st' ->
  forall f, In f (full_closure fuel' at_ sdir (tree st')) -> is_funny f = true.
Proof.
  induction fuel' as [|fuel' IH];
    intros fuel source replica at_ sdir st st' H f I; [contradiction|].
  destruct fuel as [|fuel]; [discriminate|].
  rewrite full_closure_S in I.
  rewrite (synced_left_only _ _ _ _ _ _ H) in I.
  rewrite (synced_right_only _ _ _ _ _ _ H) in I.
  rewrite (synced_diff_files _ _ _ _ _ _ H) in I.
  simpl in I. apply in_app_or in I. destruct I as [I | I].
  - apply in_map_iff in I. destruct I as [x [<- _]]. reflexivity.
  - apply in_flat_map in I. destruct I as [x [Ix I]].
    apply In_common_dirs in Ix. destruct Ix as [V [ssub [rsub' [S R]]]].
    rewrite S, R in I.
    destruct (synced_common_dirs _ _ _ _ _ _ x ssub rsub' H V S R)
      as [-> | [rsub [lg [st_sub [A [B ->]]]]]].
    + rewrite self_closure in I. contradiction.
    + eapply IH; eauto.
Qed.

(** ** Fuel *)

Lemma depth_lookup (x : string) (d : dir) (n : node) :
  lookup x d = Some n -> (depth n < depth (Dir d))%nat.
Proof.
  simpl. induction d as [|[y m] d IH]; simpl; [discriminate|].
  destruct (String.eqb x y).
  - intros [= ->]. lia.
  - intros H. apply IH in H. lia.
Qed.

Lemma bind_ext (o : outcome) (k1 k2 : state -> outcome) :
  (forall st, k1 st = k2 st) -> bind o k1 = bind o k2.
Proof. intros H. destruct o; simpl; auto. Qed.

(** Fuel above the depth of the source does not change the run. *)
Lemma sync_folders_fuel (fuel1 : nat) :
  forall (fuel2 : nat) (source replica : string) (sdir : dir) (st : state),
  (depth (Dir sdir) <= fuel1)%nat ->
  (depth (Dir sdir) <= fuel2)%nat ->
  sync_folders fuel1 source replica sdir st
  = sync_folders fuel2 source replica sdir st.
Proof.
  induction fuel1 as [|fuel1 IH]; intros fuel2 source replica sdir st H1 H2.
  - simpl in H1. lia.
  - destruct fuel2 as [|fuel2]; [simpl in H2; lia|].
    rewrite !sync_folders_S. apply bind_ext. intros st1.
    f_equal. apply for_each_ext. intros y s _. unfold descend.
    destruct (lookup y sdir) as [[f|ssub]|] eqn:L; try reflexivity.
    destruct (lookup y (tree s)) as [[g|rsub]|]; try reflexivity.
    apply depth_lookup in L. rewrite (IH fuel2); [reflexivity | lia | lia].
Qed.

Lemma for_each_no_recursion (body : string -> state -> outcome)
    (l : list string) :
  (forall y st, In y l -> raises_recursion (body y st) = false) ->
  forall st, raises_recursion (for_each body l st) = false.
Proof.
  induction l as [|y l IH]; intros B st; simpl; [reflexivity|].
  pose proof (B y st (or_introl eq_refl)) as Hy.
  destruct (body y st) as [st1|e st1]; simpl in *; [|assumption].
  apply IH. intros z s Hz. apply B. now right.
Qed.

(** With fuel above the depth of the source the recursion never runs out. *)
Lemma sync_folders_enough_fuel (fuel : nat) :
  forall (source replica : string) (sdir : dir) (st : state),
  (depth (Dir sdir) <= fuel)%nat ->
  raises_recursion (sync_folders fuel source replica sdir st) = false.
Proof.
  induction fuel as [|fuel IH]; intros source replica sdir st H.
  - simpl in H. lia.
  - rewrite sync_folders_S.
    assert (B : forall o k, raises_recursion o = false ->
                (forall s, raises_recursion (k s) = false) ->
                raises_recursion (bind o k) = false).
    { intros [s|e s] k Ho Hk; simpl; auto. }
    apply B; [|intros st1; apply B; [|intros st2]].
    + apply for_each_no_recursion. intros y s _. unfold copy_item.
      destruct (lookup y sdir) as [[f|sub]|]; [| |reflexivity].
      * unfold copy2, write_file.
        destruct (lookup y (tree s)) as [[old|inner]|]; simpl;
          try reflexivity.
        -- now destruct (writable old).
        -- destruct (lookup y inner) as [[old|?]|]; try reflexivity.
           now destruct (writable old).
      * unfold copytree. now destruct (lookup y (tree s)).
    + apply for_each_no_recursion. intros y s _. unfold descend.
      destruct (lookup y sdir) as [[f|ssub]|] eqn:L; try reflexivity.
      destruct (lookup y (tree s)) as [[g|rsub]|]; try reflexivity.
      apply depth_lookup in L.
      specialize (IH (join source y) (join replica y) ssub
                     {| tree := rsub; log := log s |}).
      destruct (sync_folders fuel _ _ ssub _) as [?|e ?]; simpl; [reflexivity|].
      apply IH. lia.
    + apply for_each_no_recursion. intros y s _. unfold remove_item.
      now destruct (lookup y (tree s)) as [[f|sub]|].
Qed.

(** ** A second run *)

Lemma state_eta (st : state) : {| tree := tree st; log := log st |} = st.
Proof. now destruct st. Qed.

(** A run on a tree and its own copy does nothing. *)
Lemma sync_folders_copy_noop (fuel : nat) :
  forall (source replica : string) (d : dir) (lg : list record),
  (depth (Dir d) <= fuel)%nat ->
  sync_folders fuel source replica d {| tree := d; log := lg |}
  = Ok {| tree := d; log := lg |}.
Proof.
  induction fuel as [|fuel IH]; intros source replica d lg H.
  - simpl in H. lia.
  - rewrite sync_folders_S. cbn [tree]. unfold to_copy.
    rewrite self_left_only, self_diff_files, self_right_only.
    cbn [app for_each bind].
    rewrite for_each_skip; [reflexivity|].
    intros y I. apply In_common_dirs in I.
    destruct I as [_ [sa [sb [A B]]]]. unfold descend. cbn [tree log].
    rewrite A. pose proof (depth_lookup _ _ _ A) as DA.
    rewrite IH by lia. cbn [leave tree log].
    rewrite put_same by assumption. reflexivity.
Qed.

(** A run after a run that returned does nothing: it returns, and neither
    the replica nor the log has changed. *)
Lemma second_run_noop (fuel2 : nat) :
  forall (fuel : nat) (source replica source2 replica2 : string) (sdir : dir)
         (st st' : state) (lg : list record),
  sync_folders fuel source replica sdir st = Ok st' ->
  (depth (Dir sdir) <= fuel2)%nat ->
  sync_folders fuel2 source2 replica2 sdir {| tree := tree st'; log := lg |}
  = Ok {| tree := tree st'; log := lg |}.
Proof.
  induction fuel2 as [|fuel2 IH];
    intros fuel source replica source2 replica2 sdir st st' lg H D.
  - simpl in D. lia.
  - destruct fuel as [|fuel]; [discriminate|].
    rewrite sync_folders_S. cbn [tree]. unfold to_copy.
    rewrite (synced_left_only _ _ _ _ _ _ H).
    rewrite (synced_diff_files _ _ _ _ _ _ H).
    rewrite (synced_right_only _ _ _ _ _ _ H).
    cbn [app for_each bind].
    rewrite for_each_skip; [reflexivity|].
    intros y I. apply In_common_dirs in I.
    destruct I as [V [ssub [rsub' [A B]]]]. unfold descend. cbn [tree log].
    rewrite A, B. pose proof (depth_lookup _ _ _ A) as DA.
    destruct (synced_common_dirs _ _ _ _ _ _ y ssub rsub' H V A B)
      as [-> | [rsub [lg0 [st_sub [R [S ->]]]]]].
    + rewrite sync_folders_copy_noop by lia. cbn [leave tree log].
      rewrite put_same by assumption. reflexivity.
    + rewrite (IH _ _ _ _ _ _ _ _ lg S) by lia. cbn [leave tree log].
      rewrite put_same by assumption. reflexivity.
Qed.

(** ** Entries below the roots *)

Lemma lookup_path_cons (x : string) (p : list string) (d : dir) :
  lookup_path (x :: p) (Dir d)
  = match lookup x d with Some n => lookup_path p n | None => None end.
Proof. reflexivity. Qed.

Lemma lookup_path_file (p : list string) (f : file) :
  lookup_path p (File f) <> None -> p = [].
Proof. destruct p; [reflexivity | simpl; congruence]. Qed.

(** ** Raising *)

Lemma for_each_raise (body : string -> state -> outcome)
    (done_ rest : list string) (x : string) (st st1 st2 : state) (e : exn) :
  for_each body done_ st = Ok st1 ->
  body x st1 = Raise e st2 ->
  for_each body (done_ ++ x :: rest) st = Raise e st2.
Proof.
  intros H B. rewrite for_each_app, H. simpl. now rewrite B.
Qed.

Lemma copy_item_raise (source replica : string) (sdir : dir) (x : string)
    (st st' : state) (e : exn) :
  copy_item source replica sdir x st = Raise e st' -> st' = st.
Proof.
  unfold copy_item. destruct (lookup x sdir) as [[f|sub]|].
  - destruct (copy2 f x (tree st)); [discriminate | congruence].
  - destruct (copytree sub x (tree st)); [discriminate | congruence].
  - congruence.
Qed.

(** An exception of the run on a subdirectory leaves the run on its parent
    too; the directories after it and the removals are not reached. *)
Lemma sync_folders_raise_below (fuel : nat) (source replica : string)
    (sdir : dir) (st st1 st2 st3 : state) (done_ rest : list string)
    (y : string) (e : exn) :
  for_each (copy_item source replica sdir) (to_copy sdir (tree st)) st = Ok st1 ->
  common_dirs (dircmp sdir (tree st)) = (done_ ++ y :: rest)%list ->
  for_each (descend fuel source replica sdir) done_ st1 = Ok st2 ->
  descend fuel source replica sdir y st2 = Raise e st3 ->
  sync_folders (S fuel) source replica sdir st = Raise e st3.
Proof.
  intros H1 C H2 H3. rewrite sync_folders_S, H1, C. simpl.
  now rewrite (for_each_raise _ _ _ _ _ _ _ _ H2 H3).
Qed.

(** ** The process *)

Lemma registered_next (interval now next : Z) :
  every_seconds_do interval now = Registered next -> next = now + interval.
Proof.
  unfold every_seconds_do.
  destruct (orb _ _); [discriminate|].
  destruct (Z.ltb interval 1); [discriminate|].
  destruct (Z.ltb timedelta_max interval); [discriminate|].
  destruct (Z.ltb datetime_max (now + interval)); [discriminate|].
  congruence.
Qed.

Lemma main_scheduling (source replica : string) (interval : Z) (fs : dir)
    (now : Z) :
  stat (main source replica interval fs now) = Scheduling ->
  main source replica interval fs now
  = {| stat := Scheduling; clock := now; next_run := now + interval;
       root := fs; journal := [INFO "Starting initial synchronization."];
       runs := O |}.
Proof.
  unfold main.
  destruct (every_seconds_do interval now) as [next|msg|] eqn:R;
    try discriminate.
  apply registered_next in R. subst next.
  destruct (os_path_exists fs source); simpl; [|discriminate].
  destruct (os_path_exists fs replica); simpl; [|discriminate].
  destruct (String.eqb source replica); simpl; [discriminate|reflexivity].
Qed.

Lemma loop_iteration_stopped (source replica : string) (interval : Z)
    (p : process) :
  stat p <> Scheduling -> loop_iteration source replica interval p = p.
Proof.
  unfold loop_iteration. destruct (stat p); congruence.
Qed.

Lemma run_main_stopped (source replica : string) (interval : Z) (fs : dir)
    (now : Z) (n : nat) :
  stat (run_main n source replica interval fs now) <> Scheduling ->
  forall m, (n <= m)%nat ->
  run_main m source replica interval fs now
  = run_main n source replica interval fs now.
Proof.
  intros H m L. induction L as [|m L IH]; [reflexivity|].
  simpl. rewrite IH. now apply loop_iteration_stopped.
Qed.

(** Until the interval has passed the loop only sleeps. *)
Lemma run_main_waiting (source replica : string) (interval : Z) (fs : dir)
    (now : Z) (n : nat) :
  stat (main source replica interval fs now) = Scheduling ->
  Z.of_nat n <= interval ->
  run_main n source replica interval fs now
  = {| stat := Scheduling; clock := now + Z.of_nat n;
       next_run := now + interval; root := fs;
       journal := [INFO "Starting initial synchronization."]; runs := O |}.
Proof.
  intros H. induction n as [|n IH]; intros L.
  - simpl. rewrite main_scheduling by assumption. f_equal. lia.
  - cbn [run_main]. rewrite IH by lia. unfold loop_iteration. cbn [stat next_run clock].
    destruct (Z.leb_spec (now + interval) (now + Z.of_nat n)); [lia|].
    cbn. f_equal. lia.
Qed.

(** * The mirror *)

(** ** Convergence *)

(** C1, as the code has it: after a call of sync_folders that returns, a
    fresh comparison of source and replica reports no name that is only in
    the source, none that is only in the replica and no differing file, at
    this level and at every level it reaches through the common directories.
    (Names that are a file on one side and a directory on the other are not
    part of the statement: the run does not resolve them.) *)
Theorem sync_folders_converges (fuel : nat) (source replica : string)
    (sdir : dir) (st st' : state) (fuel' : nat) (at_ p : list string) :
  sync_folders fuel source replica sdir st = Ok st' ->
  ~ In (Left_only p) (full_closure fuel' at_ sdir (tree st')) /\
  ~ In (Right_only p) (full_closure fuel' at_ sdir (tree st')) /\
  ~ In (Differing p) (full_closure fuel' at_ sdir (tree st')).
Proof.
  intros H.
  pose proof (converges_funny fuel' fuel source replica at_ sdir st st' H) as F.
  repeat split; intros I; apply F in I; discriminate.
Qed.

Lemma sync_folders_converges_witness :
  ~ In (Left_only ["a.txt"])
      (full_closure 3 [] source_tree
         (tree (state_of (sync_folders 3 "s" "r" source_tree
                            {| tree := replica_tree; log := [] |})))) /\
  ~ In (Right_only ["a.txt"])
      (full_closure 3 [] source_tree
         (tree (state_of (sync_folders 3 "s" "r" source_tree
                            {| tree := replica_tree; log := [] |})))) /\
  ~ In (Differing ["a.txt"])
      (full_closure 3 [] source_tree
         (tree (state_of (sync_folders 3 "s" "r" source_tree
                            {| tree := replica_tree; log := [] |})))).
Proof.
  apply (sync_folders_converges 3 "s" "r" source_tree
           {| tree := replica_tree; log := [] |}).
  reflexivity.
Defined.

(** C1 as the spec states it fails: with source/x a file and replica/x a
    directory the run returns without an error and without touching x, and
    the fresh comparison still reports the mismatch. *)
Lemma converges_counterexample :
  sync_folders 2 "source" "replica" source_x_file
    {| tree := replica_x_dir; log := [] |}
  = Ok {| tree := replica_x_dir; log := [] |} /\
  In (Funny ["x"]) (full_closure 2 [] source_x_file replica_x_dir).
Proof. split; [reflexivity | simpl; auto]. Qed.

(** ** Failures *)

(** C2, as the code has it: a copy that fails, at the level of the run or
    in any directory below it, is not caught by sync_folders.  The exception
    leaves the run from the item that failed: the replica and the log are the
    ones reached before that item, so nothing is recorded about the failure,
    and the names after it, the directories after it and the removals are
    not processed. *)
Theorem item_failure_aborts_run (fuel : nat) (source replica : string)
    (sdir : dir) (st : state) (e : exn) (st' : state) :
  copy_fails fuel source replica sdir st e st' ->
  sync_folders fuel source replica sdir st = Raise e st'.
Proof.
  induction 1 as [fuel source replica sdir st st1 st2 done_ rest x e T H C
                 |fuel source replica sdir st st1 st2 st3 done_ rest y
                    ssub rsub e H1 C H2 S R F IH].
  - rewrite sync_folders_S, T.
    rewrite (for_each_raise _ _ _ _ _ _ _ _ H C). simpl.
    now rewrite (copy_item_raise _ _ _ _ _ _ _ C).
  - eapply sync_folders_raise_below; eauto.
    unfold descend. rewrite S, R, IH. reflexivity.
Qed.

Lemma item_failure_aborts_run_witness :
  sync_folders 2 "data" "backup" source_nested
    {| tree := replica_nested; log := [] |}
  = Raise PermissionError
      {| tree := put "a.txt" (File file_v1) replica_nested;
         log := [INFO "Copied file from data/a.txt to backup/a.txt"] |}.
Proof.
  apply (item_failure_aborts_run 2 "data" "backup" source_nested
           {| tree := replica_nested; log := [] |} PermissionError
           {| tree := put "dir" (Dir replica_bc)
                        (put "a.txt" (File file_v1) replica_nested);
              log := [INFO "Copied file from data/a.txt to backup/a.txt"] |}).
  apply (fails_below 1 "data" "backup" source_nested
           {| tree := replica_nested; log := [] |}
           {| tree := put "a.txt" (File file_v1) replica_nested;
              log := [INFO "Copied file from data/a.txt to backup/a.txt"] |}
           {| tree := put "a.txt" (File file_v1) replica_nested;
              log := [INFO "Copied file from data/a.txt to backup/a.txt"] |}
           {| tree := replica_bc;
              log := [INFO "Copied file from data/a.txt to backup/a.txt"] |}
           [] ["z"] "dir" source_bc replica_bc PermissionError);
    try reflexivity.
  apply (fails_here 0 "data/dir" "backup/dir" source_bc
           {| tree := replica_bc;
              log := [INFO "Copied file from data/a.txt to backup/a.txt"] |}
           {| tree := replica_bc;
              log := [INFO "Copied file from data/a.txt to backup/a.txt"] |}
           {| tree := replica_bc;
              log := [INFO "Copied file from data/a.txt to backup/a.txt"] |}
           [] ["c.txt"] "b.txt" PermissionError); reflexivity.
Defined.

(** C2 as the spec states it fails: replica/b.txt cannot be overwritten, and
    the run raises PermissionError.  The log is empty, c.txt has not been
    overwritten and stale.txt has not been removed. *)
Lemma item_failure_counterexample :
  exists st,
    sync_folders 2 "data" "backup" source_bc
      {| tree := replica_bc; log := [] |} = Raise PermissionError st /\
    log st = [] /\
    lookup "c.txt" (tree st) = Some (File file_v1) /\
    lookup "c.txt" source_bc = Some (File file_v2) /\
    lookup "stale.txt" (tree st) = Some (File file_v1).
Proof.
  exists {| tree := replica_bc; log := [] |}. repeat split.
Qed.

(** ** The scenarios of the specification *)

(** The source has a.txt, the replica is empty. *)
Example scenario_copy :
  sync_folders 1 "source" "replica" [("a.txt", File file_v1)]
    {| tree := []; log := [] |}
  = Ok {| tree := [("a.txt", File file_v1)];
          log := [INFO "Copied file from source/a.txt to replica/a.txt"] |}.
Proof. reflexivity. Qed.

(** dir/b.txt differs: it is overwritten, and that is the one line logged. *)
Example scenario_overwrite :
  sync_folders 2 "source" "replica" [("dir", Dir [("b.txt", File file_v2)])]
    {| tree := [("dir", Dir [("b.txt", File file_v1)])]; log := [] |}
  = Ok {| tree := [("dir", Dir [("b.txt", File file_v2)])];
          log := [INFO "Copied file from source/dir/b.txt to replica/dir/b.txt"] |}.
Proof. reflexivity. Qed.

(** stale.txt is only in the replica. *)
Example scenario_remove :
  sync_folders 1 "source" "replica" []
    {| tree := [("stale.txt", File file_v1)]; log := [] |}
  = Ok {| tree := []; log := [INFO "Removed file replica/stale.txt"] |}.
Proof. reflexivity. Qed.

(** Same size and same modification time: the two files are taken as
    identical without being read, and the replica keeps its content. *)
Example scenario_shallow :
  sync_folders 1 "source" "replica"
    [("a.txt", File {| content := "new"; mtime := 7; writable := true |})]
    {| tree := [("a.txt", File {| content := "old"; mtime := 7; writable := true |})];
       log := [] |}
  = Ok {| tree := [("a.txt", File {| content := "old"; mtime := 7; writable := true |})];
          log := [] |}.
Proof. reflexivity. Qed.

(** ** Kinds that differ *)

(** C6, as the code has it: a name that is a file on one side and a
    directory on the other is in none of the three loops; the replica entry
    is after the run what it was before, whether the run returns or
    raises. *)
Theorem type_mismatch_untouched (fuel : nat) (source replica : string)
    (sdir : dir) (st : state) (x : string) :
  (exists f sb, lookup x sdir = Some (File f)
                /\ lookup x (tree st) = Some (Dir sb)) \/
  (exists sa g, lookup x sdir = Some (Dir sa)
                /\ lookup x (tree st) = Some (File g)) ->
  lookup x (tree (state_of (sync_folders fuel source replica sdir st)))
  = lookup x (tree st).
Proof.
  intros M. apply sync_folders_frame.
  - intros I. apply to_copy_precondition in I.
    destruct I as [_ [I | [f [g [A B]]]]];
      destruct M as [[f' [sb [S R]]] | [sa [g' [S R]]]]; congruence.
  - intros I. apply In_common_dirs in I. destruct I as [_ [sa [sb [A B]]]].
    destruct M as [[f' [sb' [S R]]] | [sa' [g' [S R]]]]; congruence.
  - intros I. apply In_right_only in I. destruct I as [_ [_ I]].
    destruct M as [[f' [sb' [S R]]] | [sa' [g' [S R]]]]; congruence.
Qed.

Lemma type_mismatch_untouched_witness :
  lookup "x"
    (tree (state_of (sync_folders 2 "source" "replica" source_x_file
                       {| tree := replica_x_dir; log := [] |})))
  = lookup "x" replica_x_dir.
Proof.
  apply (type_mismatch_untouched 2 "source" "replica" source_x_file
           {| tree := replica_x_dir; log := [] |} "x").
  left. exists file_v1, [("y", File file_v2)]. split; reflexivity.
Defined.

(** C6 as the spec states it fails: source/x is a file, replica/x a
    directory; the run returns and replica/x is still the directory. *)
Lemma type_mismatch_counterexample :
  lookup "x" source_x_file = Some (File file_v1) /\
  exists st,
    sync_folders 2 "source" "replica" source_x_file
      {| tree := replica_x_dir; log := [] |} = Ok st /\
    lookup "x" (tree st) = Some (Dir [("y", File file_v2)]).
Proof.
  split; [reflexivity|].
  exists {| tree := replica_x_dir; log := [] |}. split; reflexivity.
Qed.

(** ** Removals *)

(** C7, as the code has it: an entry that is under the replica root and
    not under the source root is absent after a run that returns, when no
    name on its path is hidden or ignored by dircmp and no directory above it
    is a regular file in the source. *)
Theorem replica_only_removed (p : list string) :
  forall (fuel : nat) (source replica : string) (sdir : dir) (st st' : state),
  sync_folders fuel source replica sdir st = Ok st' ->
  (forall n, In n p -> visible n = true) ->
  (forall q r f, p = (q ++ r)%list -> lookup_path q (Dir sdir) <> Some (File f)) ->
  lookup_path p (Dir (tree st)) <> None ->
  lookup_path p (Dir sdir) = None ->
  lookup_path p (Dir (tree st')) = None.
Proof.
  induction p as [|x p IH];
    intros fuel source replica sdir st st' H V M R S; [discriminate|].
  destruct fuel as [|fuel]; [discriminate|].
  assert (Vx : visible x = true) by (apply V; now left).
  rewrite lookup_path_cons in *.
  destruct (lookup x (tree st)) as [n|] eqn:Rx; [|congruence].
  destruct (lookup x sdir) as [[f|ssub]|] eqn:Sx.
  - exfalso. apply (M [x] p f eq_refl). simpl. now rewrite Sx.
  - destruct n as [g|rsub].
    + apply lookup_path_file in R. subst p. discriminate.
    + assert (I : In x (common_dirs (dircmp sdir (tree st)))).
      { apply In_common_dirs. split; [assumption|]. eauto. }
      destruct (sync_folders_descended _ _ _ _ _ _ x H I)
        as [ssub0 [rsub0 [lg [st_sub [A [B [C E]]]]]]].
      rewrite E.
      assert (ssub0 = ssub) by congruence.
      assert (rsub0 = rsub) by congruence. subst ssub0 rsub0.
      eapply (IH _ _ _ ssub {| tree := rsub; log := lg |}); eauto.
      * intros n Hn. apply V. now right.
      * intros q r f0 -> Q. apply (M (x :: q) r f0 eq_refl).
        rewrite lookup_path_cons, Sx. exact Q.
  - assert (I : In x (right_only (dircmp sdir (tree st)))).
    { apply In_right_only. repeat split; congruence. }
    now rewrite (sync_folders_removed _ _ _ _ _ _ x H I).
Qed.

Lemma replica_only_removed_witness :
  lookup_path ["dir"; "old"; "z"]
    (Dir (tree (state_of (sync_folders 3 "s" "r" source_tree
                            {| tree := replica_tree; log := [] |}))))
  = None.
Proof.
  apply (replica_only_removed ["dir"; "old"; "z"] 3 "s" "r" source_tree
           {| tree := replica_tree; log := [] |}).
  - reflexivity.
  - intros n [<- | [<- | [<- | []]]]; reflexivity.
  - intros q r f E.
    destruct q as [|a q]; [simpl; discriminate|]. injection E as <- E.
    destruct q as [|b q]; [simpl; discriminate|]. injection E as <- E.
    simpl. discriminate.
  - simpl. discriminate.
  - reflexivity.
Defined.

(** C7 as the spec states it fails: x/y is under the replica root only,
    the run returns, and x/y is still there, because source/x is a file. *)
Lemma deletion_counterexample :
  lookup_path ["x"; "y"] (Dir source_x_file) = None /\
  lookup_path ["x"; "y"] (Dir replica_x_dir) = Some (File file_v2) /\
  exists st,
    sync_folders 2 "source" "replica" source_x_file
      {| tree := replica_x_dir; log := [] |} = Ok st /\
    lookup_path ["x"; "y"] (Dir (tree st)) = Some (File file_v2).
Proof.
  repeat split.
  exists {| tree := replica_x_dir; log := [] |}. split; reflexivity.
Qed.

(** The names dircmp ignores stay in the replica too. *)
Example ignored_names_stay :
  sync_folders 2 "source" "replica" []
    {| tree := [(".git", Dir []); ("tags", File file_v1)]; log := [] |}
  = Ok {| tree := [(".git", Dir []); ("tags", File file_v1)]; log := [] |}.
Proof. reflexivity. Qed.

(** ** Two runs in a row *)

(** C8: when a run has returned, a second run on the same source and the
    replica the first one left returns too, and it leaves both the replica
    and the log as they were: no copy, no removal. *)
Theorem second_run_does_nothing (fuel fuel2 : nat) (source replica : string)
    (sdir : dir) (st st' : state) :
  sync_folders fuel source replica sdir st = Ok st' ->
  (depth (Dir sdir) <= fuel2)%nat ->
  sync_folders fuel2 source replica sdir st' = Ok st'.
Proof.
  intros H D.
  pose proof (second_run_noop fuel2 fuel source replica source replica sdir
                st st' (log st') H D) as N.
  now rewrite state_eta in N.
Qed.

Lemma second_run_does_nothing_witness :
  sync_folders 3 "s" "r" source_tree
    (state_of (sync_folders 3 "s" "r" source_tree
                 {| tree := replica_tree; log := [] |}))
  = Ok (state_of (sync_folders 3 "s" "r" source_tree
                    {| tree := replica_tree; log := [] |})).
Proof.
  apply (second_run_does_nothing 3 3 "s" "r" source_tree
           {| tree := replica_tree; log := [] |}).
  - reflexivity.
  - simpl. lia.
Defined.

(** ** Identical files *)

(** C10: a name that is a file on both sides and that filecmp.cmp takes as
    identical is in none of the three loops, and the replica file is after
    the run, returned or raised, the file it was before. *)
Theorem identical_file_untouched (fuel : nat) (source replica : string)
    (sdir : dir) (st : state) (x : string) (f g : file) :
  lookup x sdir = Some (File f) ->
  lookup x (tree st) = Some (File g) ->
  cmp f g = true ->
  ~ In x (to_copy sdir (tree st)) /\
  ~ In x (common_dirs (dircmp sdir (tree st))) /\
  ~ In x (right_only (dircmp sdir (tree st))) /\
  lookup x (tree (state_of (sync_folders fuel source replica sdir st)))
  = Some (File g).
Proof.
  intros S R C.
  assert (N1 : ~ In x (to_copy sdir (tree st))).
  { unfold to_copy. rewrite in_app_iff, In_left_only, In_diff_files.
    intros [[_ [_ I]] | [_ [f' [g' [A [B D]]]]]]; congruence. }
  assert (N2 : ~ In x (common_dirs (dircmp sdir (tree st)))).
  { rewrite In_common_dirs. intros [_ [sa [sb [A B]]]]. congruence. }
  assert (N3 : ~ In x (right_only (dircmp sdir (tree st)))).
  { rewrite In_right_only. intros [_ [_ I]]. congruence. }
  repeat split; try assumption.
  rewrite sync_folders_frame by assumption. exact R.
Qed.

Lemma identical_file_untouched_witness :
  ~ In "same.txt" (to_copy source_tree replica_tree) /\
  ~ In "same.txt" (common_dirs (dircmp source_tree replica_tree)) /\
  ~ In "same.txt" (right_only (dircmp source_tree replica_tree)) /\
  lookup "same.txt"
    (tree (state_of (sync_folders 3 "s" "r" source_tree
                       {| tree := replica_tree; log := [] |})))
  = Some (File file_v1).
Proof.
  apply (identical_file_untouched 3 "s" "r" source_tree
           {| tree := replica_tree; log := [] |} "same.txt" file_v1 file_v1);
    reflexivity.
Defined.

(** * The schedule *)

(** C3: the scheduler runs the callback once immediately and then after
    every interval.  The code does not: the job is registered to run one
    interval after the start and main never calls sync_folders itself, so
    while the clock is within the first interval no run has been started and
    the file system is what it was at the start. *)
Theorem no_run_before_interval (source replica : string) (interval : Z)
    (fs : dir) (now : Z) (n : nat) :
  stat (main source replica interval fs now) = Scheduling ->
  Z.of_nat n <= interval ->
  runs (run_main n source replica interval fs now) = O /\
  root (run_main n source replica interval fs now) = fs /\
  clock (run_main n source replica interval fs now) = now + Z.of_nat n.
Proof.
  intros H L. rewrite run_main_waiting by assumption. repeat split.
Qed.

Lemma no_run_before_interval_witness :
  runs (run_main 3600 "data" "mirror" 3600 disk 0) = O /\
  root (run_main 3600 "data" "mirror" 3600 disk 0) = disk /\
  clock (run_main 3600 "data" "mirror" 3600 disk 0) = 0 + Z.of_nat 3600.
Proof.
  apply (no_run_before_interval "data" "mirror" 3600 disk 0 3600).
  - reflexivity.
  - vm_compute. discriminate.
Defined.

(** os.path.exists on the paths of the examples: a trailing slash or a dot
    after a regular file, and a step through a missing directory, fail. *)
Example os_path_exists_cases :
  os_path_exists disk "data/b.txt" = true /\
  os_path_exists disk "data/b.txt/" = false /\
  os_path_exists disk "data/b.txt/." = false /\
  os_path_exists disk "data/b.txt/../c.txt" = false /\
  os_path_exists disk "absent/../data" = false /\
  os_path_exists disk "data/../mirror" = true /\
  os_path_exists disk "data//" = true /\
  os_path_exists disk "./data/." = true /\
  os_path_exists disk ".." = true /\
  os_path_exists disk "" = false.
Proof. repeat split. Qed.

(** The registration of the job: an interval of 0 is not settled, and a date
    past the year 9999 is an error that main logs before it exits. *)
Example registration_cases :
  stat (main "data" "mirror" 0 disk 1700000000) = Registering /\
  main "data" "mirror" 252000000000 disk 1700000000
  = {| stat := Exited 0; clock := 1700000000;
       next_run := 1700000000 + 252000000000; root := disk;
       journal :=
         [INFO "Starting initial synchronization.";
          ERROR "Error synchronizing data to mirror: date value out of range"];
       runs := O |}.
Proof. split; reflexivity. Qed.

(** C4, as the code has it: the job is registered before the checks.  When
    that call returns or raises, which it does for every interval of at
    least one second within the range of timedelta, and the source or the
    replica does not exist (os.stat fails on the path) or the two arguments
    are the same string, main logs an error and leaves through exit(), whose
    status is 0; the loop is never entered, so no run is started and the
    file system is not changed. *)
Theorem validation_failure_exits (source replica : string) (interval : Z)
    (fs : dir) (now : Z) (n : nat) :
  every_seconds_do interval now <> Unsettled ->
  os_path_exists fs source = false \/
  os_path_exists fs replica = false \/
  source = replica ->
  stat (run_main n source replica interval fs now) = Exited 0 /\
  runs (run_main n source replica interval fs now) = O /\
  root (run_main n source replica interval fs now) = fs /\
  exists msg, In (ERROR msg) (journal (run_main n source replica interval fs now)).
Proof.
  intros U V.
  assert (M : stat (main source replica interval fs now) = Exited 0 /\
              runs (main source replica interval fs now) = O /\
              root (main source replica interval fs now) = fs /\
              exists msg, In (ERROR msg)
                            (journal (main source replica interval fs now))).
  { unfold main.
    destruct (every_seconds_do interval now) as [next|msg|]; [| |congruence].
    - destruct (os_path_exists fs source) eqn:S; simpl.
      + destruct (os_path_exists fs replica) eqn:R; simpl.
        * destruct V as [V | [V | V]]; try discriminate.
          subst replica. rewrite String.eqb_refl. simpl.
          repeat split. eexists. right. left. reflexivity.
        * repeat split. eexists. right. left. reflexivity.
      + repeat split. eexists. right. left. reflexivity.
    - repeat split. eexists. right. left. reflexivity. }
  assert (E : run_main n source replica interval fs now
              = main source replica interval fs now).
  { apply (run_main_stopped source replica interval fs now 0); [|lia].
    simpl. destruct M as [M _]. rewrite M. discriminate. }
  rewrite E. exact M.
Qed.

Lemma validation_failure_exits_witness :
  stat (run_main 5 "data/b.txt/" "mirror" 3600 disk 0) = Exited 0 /\
  runs (run_main 5 "data/b.txt/" "mirror" 3600 disk 0) = O /\
  root (run_main 5 "data/b.txt/" "mirror" 3600 disk 0) = disk /\
  exists msg,
    In (ERROR msg) (journal (run_main 5 "data/b.txt/" "mirror" 3600 disk 0)).
Proof.
  apply (validation_failure_exits "data/b.txt/" "mirror" 3600 disk 0 5).
  - discriminate.
  - left. reflexivity.
Defined.

(** C4 as the spec states it fails: the source does not exist, and the
    status of the process is 0. *)
Lemma validation_failure_counterexample :
  os_path_exists disk "absent" = false /\
  exit_status (stat (main "absent" "mirror" 3600 disk 0)) = Some 0.
Proof. split; reflexivity. Qed.

(** C5: two arguments that name the same folder are rejected.  The code
    compares the two strings: data and ./data are the same directory, main
    enters the loop, and the job runs when the interval has passed. *)
Theorem same_folder_accepted :
  components "data" = components "./data" /\
  stat (main "data" "./data" 3600 disk 0) = Scheduling /\
  runs (run_main 3601 "data" "./data" 3600 disk 0) = 1%nat.
Proof. repeat split; vm_compute; reflexivity. Qed.

(** C9, as the code has it: an exception of the job is caught neither by
    schedule.run_pending nor by main.  The turn of the loop in which the job
    raises is the last: from then on the process is dead with status 1, the
    job has not been scheduled again, no further run is started, and the log
    holds nothing but what the run had logged before it raised. *)
Theorem job_exception_ends_main (n m : nat) (source replica : string)
    (interval : Z) (fs : dir) (now : Z) (e : exn) (st : state) :
  stat (run_main n source replica interval fs now) = Scheduling ->
  next_run (run_main n source replica interval fs now)
  <= clock (run_main n source replica interval fs now) ->
  job source replica (root (run_main n source replica interval fs now))
    (journal (run_main n source replica interval fs now)) = Raise e st ->
  (n < m)%nat ->
  run_main m source replica interval fs now
  = {| stat := Crashed e;
       clock := clock (run_main n source replica interval fs now);
       next_run := next_run (run_main n source replica interval fs now);
       root := tree st;
       journal := log st;
       runs := S (runs (run_main n source replica interval fs now)) |}.
Proof.
  intros S D J L.
  assert (E : run_main (Datatypes.S n) source replica interval fs now
              = {| stat := Crashed e;
                   clock := clock (run_main n source replica interval fs now);
                   next_run := next_run (run_main n source replica interval fs now);
                   root := tree st;
                   journal := log st;
                   runs := Datatypes.S (runs (run_main n source replica interval fs now)) |}).
  { cbn [run_main]. unfold loop_iteration. rewrite S.
    apply Z.leb_le in D. rewrite D, J. reflexivity. }
  rewrite (run_main_stopped source replica interval fs now (Datatypes.S n)).
  - exact E.
  - rewrite E. discriminate.
  - lia.
Qed.

Lemma job_exception_ends_main_witness :
  run_main 40 "data" "backup" 3 disk 0
  = {| stat := Crashed PermissionError;
       clock := clock (run_main 3 "data" "backup" 3 disk 0);
       next_run := next_run (run_main 3 "data" "backup" 3 disk 0);
       root := disk;
       journal := [INFO "Starting initial synchronization."];
       runs := S (runs (run_main 3 "data" "backup" 3 disk 0)) |}.
Proof.
  apply (job_exception_ends_main 3 40 "data" "backup" 3 disk 0 PermissionError
           {| tree := disk;
              log := [INFO "Starting initial synchronization."] |}).
  - reflexivity.
  - vm_compute. discriminate.
  - reflexivity.
  - lia.
Defined.

(** C9 as the spec states it fails: the run of the fourth turn raises
    PermissionError; thirty-six turns later the process is still dead, one
    run has been started in all and the log has no record of the error. *)
Lemma job_exception_counterexample :
  stat (run_main 4 "data" "backup" 3 disk 0) = Crashed PermissionError /\
  stat (run_main 40 "data" "backup" 3 disk 0) = Crashed PermissionError /\
  runs (run_main 40 "data" "backup" 3 disk 0) = 1%nat /\
  journal (run_main 40 "data" "backup" 3 disk 0)
  = [INFO "Starting initial synchronization."].
Proof. repeat split. Qed.

(** * Further properties of the run *)

(** ** The classification of dircmp *)

Lemma NoDup_same_files (a b : dir) : NoDup (same_files (dircmp a b)).
Proof. do 3 apply NoDup_filter. apply NoDup_dict_keys. Qed.

Lemma NoDup_common_funny (a b : dir) : NoDup (common_funny (dircmp a b)).
Proof. do 2 apply NoDup_filter. apply NoDup_dict_keys. Qed.

Lemma count_occ_NoDup (l : list string) (x : string) :
  NoDup l ->
  count_occ string_dec l x = if in_dec string_dec x l then 1%nat else 0%nat.
Proof.
  intros N. destruct (in_dec string_dec x l) as [I | I].
  - apply NoDup_count_occ' with (decA := string_dec) in I; assumption.
  - now apply count_occ_not_In.
Qed.

Ltac break_hyps :=
  repeat match goal with
         | H : _ /\ _ |- _ => destruct H
         | H : exists _, _ |- _ => destruct H
         | H : _ \/ _ |- _ => destruct H
         end.

Ltac settle_membership x L lemma :=
  let H := fresh "I" in
  destruct (in_dec string_dec x L) as [H | H];
  [ apply lemma in H; clear lemma;
    try (exfalso; break_hyps; congruence)
  | rewrite lemma in H; clear lemma;
    try (exfalso; apply H; clear H;
         split; [reflexivity|];
         solve [ split; [discriminate | reflexivity]
               | do 2 eexists; split; [reflexivity|]; split; reflexivity
               | do 2 eexists; split; [reflexivity|];
                 split; [reflexivity | eassumption]
               | left; do 2 eexists; split; reflexivity
               | right; do 2 eexists; split; reflexivity ]) ].

(** X1: dircmp puts a name in exactly one of left_only, right_only,
    common_dirs, same_files, diff_files and common_funny when the name is
    neither hidden nor ignored and is in one of the two listings, and in none
    of them otherwise. *)
Theorem dircmp_classifies_once (a b : dir) (x : string) :
  count_occ string_dec
    (left_only (dircmp a b) ++ right_only (dircmp a b)
     ++ common_dirs (dircmp a b) ++ same_files (dircmp a b)
     ++ diff_files (dircmp a b) ++ common_funny (dircmp a b))%list x
  = if andb (visible x) (orb (exists_ (lookup x a)) (exists_ (lookup x b)))
    then 1%nat else 0%nat.
Proof.
  rewrite !count_occ_app.
  rewrite (count_occ_NoDup _ x (NoDup_left_only a b)).
  rewrite (count_occ_NoDup _ x (NoDup_right_only a b)).
  rewrite (count_occ_NoDup _ x (NoDup_common_dirs a b)).
  rewrite (count_occ_NoDup _ x (NoDup_same_files a b)).
  rewrite (count_occ_NoDup _ x (NoDup_diff_files a b)).
  rewrite (count_occ_NoDup _ x (NoDup_common_funny a b)).
  generalize (In_left_only x a b), (In_right_only x a b),
    (In_common_dirs x a b), (In_same_files x a b), (In_diff_files x a b),
    (In_common_funny x a b).
  generalize (dircmp a b). intros d.
  destruct (visible x);
    destruct (lookup x a) as [[f|sa]|];
    destruct (lookup x b) as [[g|sb]|];
    try (destruct (cmp f g) eqn:C);
    intros L1 L2 L3 L4 L5 L6;
    settle_membership x (left_only d) L1;
    settle_membership x (right_only d) L2;
    settle_membership x (common_dirs d) L3;
    settle_membership x (same_files d) L4;
    settle_membership x (diff_files d) L5;
    settle_membership x (common_funny d) L6;
    reflexivity.
Qed.

(** ** What a run does to one entry *)

Lemma to_copy_visible (sdir rdir : dir) (x : string) :
  In x (to_copy sdir rdir) -> visible x = true.
Proof.
  unfold to_copy. rewrite in_app_iff, In_left_only, In_diff_files.
  intros [[V _] | [V _]]; exact V.
Qed.

(** X2: an entry of the replica whose name dircmp hides or ignores (., ..,
    RCS, CVS, tags, .git, .hg, .bzr, _darcs, __pycache__) is in none of the
    lists of the comparison: at the level of the run it is neither
    overwritten nor removed, and it is not entered, whether the run returns
    or raises. *)
Theorem ignored_name_untouched (fuel : nat) (source replica : string)
    (sdir : dir) (st : state) (x : string) :
  In x (hide ++ ignore) ->
  lookup x (tree (state_of (sync_folders fuel source replica sdir st)))
  = lookup x (tree st).
Proof.
  intros I. apply mem_In in I.
  assert (V : visible x = false) by (unfold visible; now rewrite I).
  apply sync_folders_frame.
  - intros T. apply to_copy_visible in T. congruence.
  - intros T. apply In_common_dirs in T. destruct T as [T _]. congruence.
  - intros T. apply In_right_only in T. destruct T as [T _]. congruence.
Qed.

Lemma ignored_name_untouched_witness :
  lookup ".git"
    (tree (state_of (sync_folders 2 "source" "replica" source_tree
                       {| tree := [(".git", Dir [("config", File file_v1)])];
                          log := [] |})))
  = Some (Dir [("config", File file_v1)]).
Proof.
  apply (ignored_name_untouched 2 "source" "replica" source_tree
           {| tree := [(".git", Dir [("config", File file_v1)])]; log := [] |}
           ".git").
  simpl. tauto.
Defined.

(** X3: a name of the source that dircmp looks at and that the replica does
    not have is, after a run that returns, in the replica what it is in the
    source: the same file with its content, modification time and mode, or
    the same directory tree, ignored names below it included. *)
Theorem source_only_copied (fuel : nat) (source replica : string)
    (sdir : dir) (st st' : state) (x : string) (n : node) :
  sync_folders fuel source replica sdir st = Ok st' ->
  visible x = true ->
  lookup x sdir = Some n ->
  lookup x (tree st) = None ->
  lookup x (tree st') = Some n.
Proof.
  intros H V S R. destruct fuel as [|fuel]; [discriminate|].
  rewrite <- S. eapply sync_folders_copied; eauto.
  unfold to_copy. apply in_or_app. left. apply In_left_only.
  repeat split; congruence.
Qed.

Lemma source_only_copied_witness :
  lookup "new"
    (tree (state_of (sync_folders 2 "source" "replica"
                       [("new", Dir [(".git", Dir []); ("f", File file_locked)])]
                       {| tree := replica_tree; log := [] |})))
  = Some (Dir [(".git", Dir []); ("f", File file_locked)]).
Proof.
  apply (source_only_copied 2 "source" "replica"
           [("new", Dir [(".git", Dir []); ("f", File file_locked)])]
           {| tree := replica_tree; log := [] |}); reflexivity.
Defined.

(** X4: a file that is on both sides and that filecmp.cmp takes as
    different is, after a run that returns, the source file in the replica:
    content, modification time and mode. *)
Theorem differing_file_overwritten (fuel : nat) (source replica : string)
    (sdir : dir) (st st' : state) (x : string) (f g : file) :
  sync_folders fuel source replica sdir st = Ok st' ->
  visible x = true ->
  lookup x sdir = Some (File f) ->
  lookup x (tree st) = Some (File g) ->
  cmp f g = false ->
  lookup x (tree st') = Some (File f).
Proof.
  intros H V S R C. destruct fuel as [|fuel]; [discriminate|].
  rewrite <- S. eapply sync_folders_copied; eauto.
  unfold to_copy. apply in_or_app. right. apply In_diff_files.
  split; [assumption|]. exists f, g. auto.
Qed.

Lemma differing_file_overwritten_witness :
  lookup "b.txt"
    (tree (state_of (sync_folders 1 "source" "replica"
                       [("b.txt", File file_locked)]
                       {| tree := [("b.txt", File file_v1)]; log := [] |})))
  = Some (File file_locked).
Proof.
  apply (differing_file_overwritten 1 "source" "replica"
           [("b.txt", File file_locked)]
           {| tree := [("b.txt", File file_v1)]; log := [] |}
           _ "b.txt" file_locked file_v1); reflexivity.
Defined.

(** X5: the comparison is shallow.  A file of the replica that has the size
    of the source file and either its modification time or its content is
    never overwritten: with the same size and time the contents are not
    read, and a replica file with the same content keeps its own time and
    mode. *)
Theorem same_signature_kept (fuel : nat) (source replica : string)
    (sdir : dir) (st : state) (x : string) (f g : file) :
  lookup x sdir = Some (File f) ->
  lookup x (tree st) = Some (File g) ->
  String.length (content f) = String.length (content g) ->
  mtime f = mtime g \/ content f = content g ->
  lookup x (tree (state_of (sync_folders fuel source replica sdir st)))
  = Some (File g).
Proof.
  intros S R L M.
  assert (C : cmp f g = true).
  { unfold cmp, sig_eqb, _sig; cbn [fst snd]. rewrite L, Z.eqb_refl. simpl.
    destruct (Z.eqb (mtime f) (mtime g)) eqn:T; [reflexivity|].
    destruct M as [M | M]; [rewrite M, Z.eqb_refl in T; discriminate|].
    rewrite M. apply String.eqb_refl. }
  rewrite sync_folders_frame; [exact R | | | ].
  - unfold to_copy. rewrite in_app_iff, In_left_only, In_diff_files.
    intros [[_ [_ I]] | [_ [f' [g' [A [B D]]]]]]; congruence.
  - rewrite In_common_dirs. intros [_ [sa [sb [A B]]]]. congruence.
  - rewrite In_right_only. intros [_ [_ I]]. congruence.
Qed.

Lemma same_signature_kept_witness :
  lookup "a.txt"
    (tree (state_of (sync_folders 1 "source" "replica"
                       [("a.txt", File {| content := "new"; mtime := 7;
                                          writable := true |})]
                       {| tree := [("a.txt", File {| content := "old";
                                                     mtime := 7;
                                                     writable := false |})];
                          log := [] |})))
  = Some (File {| content := "old"; mtime := 7; writable := false |}).
Proof.
  apply (same_signature_kept 1 "source" "replica"
           [("a.txt", File {| content := "new"; mtime := 7; writable := true |})]
           {| tree := [("a.txt", File {| content := "old"; mtime := 7;
                                         writable := false |})];
              log := [] |}
           "a.txt" {| content := "new"; mtime := 7; writable := true |}
           {| content := "old"; mtime := 7; writable := false |});
    try reflexivity.
  left. reflexivity.
Defined.

(** ** The log *)

Lemma logs_changes_bind (o : outcome) (k : state -> outcome) (st : state) :
  logs_changes o st ->
  (forall st1, o = Ok st1 -> logs_changes (k st1) st1) ->
  logs_changes (bind o k) st.
Proof.
  intros [new1 [L1 [I1 T1]]] K. destruct o as [st1|e st1]; simpl in *.
  - destruct (K st1 eq_refl) as [new2 [L2 [I2 T2]]].
    exists (new1 ++ new2)%list. repeat split.
    + rewrite L2, L1. now rewrite app_assoc.
    + rewrite forallb_app, I1, I2. reflexivity.
    + intros E. apply app_eq_nil in E. destruct E as [E1 E2].
      rewrite T2, T1; auto.
  - exists new1. auto.
Qed.

Lemma logs_changes_for_each (body : string -> state -> outcome)
    (l : list string) :
  (forall y st, In y l -> logs_changes (body y st) st) ->
  forall st, logs_changes (for_each body l st) st.
Proof.
  induction l as [|y l IH]; intros B st; simpl.
  - exists []. rewrite app_nil_r. auto.
  - apply logs_changes_bind; [apply B; now left|].
    intros st1 _. apply IH. intros z s Hz. apply B. now right.
Qed.

Lemma logs_changes_step (st : state) (t : dir) (msg : string) :
  logs_changes (Ok (info msg {| tree := t; log := log st |})) st.
Proof.
  exists [INFO msg]. simpl. repeat split. discriminate.
Qed.

Lemma logs_changes_raise (st : state) (e : exn) : logs_changes (Raise e st) st.
Proof. exists []. simpl. rewrite app_nil_r. auto. Qed.

Lemma logs_changes_copy_item (source replica : string) (sdir : dir)
    (y : string) (st : state) :
  logs_changes (copy_item source replica sdir y st) st.
Proof.
  unfold copy_item. destruct (lookup y sdir) as [[f|sub]|].
  - destruct (copy2 f y (tree st));
      [apply logs_changes_step | apply logs_changes_raise].
  - destruct (copytree sub y (tree st));
      [apply logs_changes_step | apply logs_changes_raise].
  - apply logs_changes_raise.
Qed.

Lemma logs_changes_remove_item (replica : string) (y : string) (st : state) :
  logs_changes (remove_item replica y st) st.
Proof.
  unfold remove_item. destruct (lookup y (tree st)) as [[f|sub]|];
    [apply logs_changes_step | apply logs_changes_step
    | apply logs_changes_raise].
Qed.

Lemma logs_changes_sync_folders (fuel : nat) :
  forall (source replica : string) (sdir : dir) (st : state),
  logs_changes (sync_folders fuel source replica sdir st) st.
Proof.
  induction fuel as [|fuel IH]; intros source replica sdir st.
  - apply logs_changes_raise.
  - rewrite sync_folders_S.
    apply logs_changes_bind;
      [apply logs_changes_for_each; intros; apply logs_changes_copy_item|].
    intros st1 _.
    apply logs_changes_bind;
      [|intros st2 _; apply logs_changes_for_each; intros;
        apply logs_changes_remove_item].
    apply logs_changes_for_each. intros y s _. unfold descend.
    destruct (lookup y sdir) as [[f|ssub]|]; try apply logs_changes_raise.
    destruct (lookup y (tree s)) as [[g|rsub]|] eqn:R;
      try apply logs_changes_raise.
    destruct (IH (join source y) (join replica y) ssub
                 {| tree := rsub; log := log s |}) as [new [L [I T]]].
    exists new. cbn [tree log] in *.
    destruct (sync_folders fuel _ _ ssub _) as [st'|e st']; simpl in *;
      (repeat split; [assumption | assumption |]);
      intros E; rewrite (T E); now apply put_same.
Qed.

(** X6: a run keeps every line of the log it was given and only adds lines
    of level INFO after them, whether it returns or raises; sync_folders
    itself never logs an error. *)
Theorem log_only_grows (fuel : nat) (source replica : string) (sdir : dir)
    (st : state) :
  exists new,
    log (state_of (sync_folders fuel source replica sdir st))
    = (log st ++ new)%list /\
    forallb is_info new = true.
Proof.
  destruct (logs_changes_sync_folders fuel source replica sdir st)
    as [new [L [I _]]].
  exists new. auto.
Qed.

(** X7: every change that a run that returns has made is logged.  A run
    that has returned without adding a line to the log has left the replica
    exactly as it was. *)
Theorem silent_run_changes_nothing (fuel : nat) (source replica : string)
    (sdir : dir) (st st' : state) :
  sync_folders fuel source replica sdir st = Ok st' ->
  log st' = log st ->
  tree st' = tree st.
Proof.
  intros H E.
  destruct (logs_changes_sync_folders fuel source replica sdir st)
    as [new [L [_ T]]].
  rewrite H in L, T. cbn [state_of] in L, T.
  apply T. rewrite E in L.
  rewrite <- (app_nil_r (log st)) in L at 1.
  apply app_inv_head in L. now symmetry.
Qed.

Lemma silent_run_changes_nothing_witness :
  tree (state_of (sync_folders 2 "source" "replica" source_x_file
                    {| tree := replica_x_dir; log := [INFO "before"] |}))
  = replica_x_dir.
Proof.
  apply (silent_run_changes_nothing 2 "source" "replica" source_x_file
           {| tree := replica_x_dir; log := [INFO "before"] |}
           (state_of (sync_folders 2 "source" "replica" source_x_file
                        {| tree := replica_x_dir; log := [INFO "before"] |})));
    reflexivity.
Defined.

(** ** When a run raises *)

Lemma all_writable_lookup (x : string) (d : dir) (n : node) :
  lookup x d = Some n ->
  all_writable (Dir d) = true -> all_writable n = true.
Proof.
  induction d as [|[y m] d IH]; simpl; [discriminate|].
  destruct (String.eqb x y).
  - intros [= ->] W. apply andb_prop in W. tauto.
  - intros L W. apply andb_prop in W. apply IH; tauto.
Qed.

Lemma locked_entry (x : string) (d : dir) (n : node) :
  lookup x d = Some n ->
  all_writable n = false -> all_writable (Dir d) = false.
Proof.
  intros L W. destruct (all_writable (Dir d)) eqn:A; [|reflexivity].
  rewrite (all_writable_lookup x d n L A) in W. discriminate.
Qed.

Lemma copy_item_outcome (source replica : string) (sdir : dir) (x : string)
    (st : state) :
  lookup x sdir <> None ->
  lookup x (tree st) = None \/
  (exists f g, lookup x sdir = Some (File f)
               /\ lookup x (tree st) = Some (File g)) ->
  returns_or_denied (copy_item source replica sdir x st)
    (exists g, lookup x (tree st) = Some (File g) /\ writable g = false).
Proof.
  intros S P. unfold copy_item, copy2, copytree, write_file.
  destruct (lookup x sdir) as [[f|sub]|]; [| |congruence].
  - destruct P as [P | [f' [g [_ P]]]]; rewrite P; simpl; [exact I|].
    destruct (writable g) eqn:W; simpl; [exact I|]. eauto.
  - destruct P as [P | [f' [g [A _]]]]; [|discriminate].
    rewrite P. exact I.
Qed.

Lemma copy_loop_outcome (source replica : string) (sdir : dir)
    (l : list string) :
  NoDup l ->
  forall st,
  (forall x, In x l ->
     lookup x sdir <> None /\
     (lookup x (tree st) = None \/
      (exists f g, lookup x sdir = Some (File f)
                   /\ lookup x (tree st) = Some (File g)))) ->
  returns_or_denied (for_each (copy_item source replica sdir) l st)
    (exists x g, In x l /\ lookup x (tree st) = Some (File g)
                 /\ writable g = false).
Proof.
  induction 1 as [|y l Ny ND IH]; intros st P; simpl; [exact I|].
  destruct (P y (or_introl eq_refl)) as [Sy Py].
  pose proof (copy_item_outcome source replica sdir y st Sy Py) as O.
  destruct (copy_item source replica sdir y st) as [st1|e st1] eqn:C; simpl.
  - assert (F : forall z, In z l -> lookup z (tree st1) = lookup z (tree st)).
    { intros z Hz.
      pose proof (copy_item_frame source replica sdir y z st) as Fz.
      rewrite C in Fz. apply Fz. intros ->. contradiction. }
    assert (P1 : forall x, In x l ->
              lookup x sdir <> None /\
              (lookup x (tree st1) = None \/
               (exists f g, lookup x sdir = Some (File f)
                            /\ lookup x (tree st1) = Some (File g)))).
    { intros z Hz. rewrite (F z Hz). apply P. now right. }
    specialize (IH st1 P1).
    destruct (for_each (copy_item source replica sdir) l st1) as [?|e ?];
      simpl in *; [exact I|].
    destruct IH as [-> [x [g [Hx [L W]]]]]. split; [reflexivity|].
    exists x, g. rewrite <- (F x Hx). auto.
  - destruct O as [-> [g [L W]]]. split; [reflexivity|]. exists y, g. auto.
Qed.

Lemma remove_loop_returns (replica : string) (l : list string) :
  NoDup l ->
  forall st,
  (forall x, In x l -> lookup x (tree st) <> None) ->
  exists st', for_each (remove_item replica) l st = Ok st'.
Proof.
  induction 1 as [|y l Ny ND IH]; intros st P; simpl; [eauto|].
  assert (Py : lookup y (tree st) <> None) by (apply P; now left).
  assert (R : exists st1, remove_item replica y st = Ok st1).
  { unfold remove_item. destruct (lookup y (tree st)) as [[f|sub]|];
      [eauto | eauto | congruence]. }
  destruct R as [st1 R]. rewrite R. simpl. apply IH.
  intros z Hz.
  pose proof (remove_item_frame replica y z st) as Fz.
  rewrite R in Fz. simpl in Fz. rewrite Fz; [apply P; now right|].
  intros ->. contradiction.
Qed.

Lemma descend_loop_outcome (fuel : nat) (source replica : string)
    (sdir : dir) (l : list string) :
  (forall source replica sdir st,
     (depth (Dir sdir) <= fuel)%nat ->
     returns_or_denied (sync_folders fuel source replica sdir st)
       (all_writable (Dir (tree st)) = false)) ->
  NoDup l ->
  forall st,
  (forall y, In y l ->
     exists ssub rsub,
       lookup y sdir = Some (Dir ssub) /\
       lookup y (tree st) = Some (Dir rsub) /\
       (depth (Dir ssub) <= fuel)%nat) ->
  returns_or_denied (for_each (descend fuel source replica sdir) l st)
    (exists y rsub, In y l /\ lookup y (tree st) = Some (Dir rsub)
                    /\ all_writable (Dir rsub) = false).
Proof.
  intros Run. induction 1 as [|y l Ny ND IH]; intros st P; simpl; [exact I|].
  destruct (P y (or_introl eq_refl)) as [ssub [rsub [S [R D]]]].
  destruct (descend fuel source replica sdir y st) as [st1|e st1] eqn:C;
    simpl.
  - assert (F : forall z, In z l -> lookup z (tree st1) = lookup z (tree st)).
    { intros z Hz.
      pose proof (descend_frame fuel source replica sdir y z st) as Fz.
      rewrite C in Fz. apply Fz. intros ->. contradiction. }
    assert (P1 : forall z, In z l ->
              exists ssub rsub,
                lookup z sdir = Some (Dir ssub) /\
                lookup z (tree st1) = Some (Dir rsub) /\
                (depth (Dir ssub) <= fuel)%nat).
    { intros z Hz. rewrite (F z Hz). apply P. now right. }
    specialize (IH st1 P1).
    destruct (for_each (descend fuel source replica sdir) l st1) as [?|e ?];
      simpl in *; [exact I|].
    destruct IH as [-> [z [rz [Hz [L W]]]]]. split; [reflexivity|].
    exists z, rz. rewrite <- (F z Hz). auto.
  - unfold descend in C. rewrite S, R in C.
    specialize (Run (join source y) (join replica y) ssub
                    {| tree := rsub; log := log st |} D).
    destruct (sync_folders fuel _ _ ssub _) as [?|e' ?]; simpl in *;
      [discriminate|].
    injection C as <- _. destruct Run as [-> W]. split; [reflexivity|].
    exists y, rsub. auto.
Qed.

Lemma run_outcome (fuel : nat) :
  forall (source replica : string) (sdir : dir) (st : state),
  (depth (Dir sdir) <= fuel)%nat ->
  returns_or_denied (sync_folders fuel source replica sdir st)
    (all_writable (Dir (tree st)) = false).
Proof.
  induction fuel as [|fuel IH]; intros source replica sdir st D.
  - simpl in D. lia.
  - rewrite sync_folders_S.
    pose proof (copy_loop_outcome source replica sdir _
                  (NoDup_to_copy sdir (tree st)) st
                  (to_copy_precondition sdir (tree st))) as O1.
    destruct (for_each (copy_item source replica sdir) _ st)
      as [st1|e st1] eqn:H1; cbn [bind returns_or_denied].
    2:{ destruct O1 as [-> [x [g [_ [L W]]]]]. split; [reflexivity|].
        eapply locked_entry; eauto. }
    assert (F1 : forall x, ~ In x (to_copy sdir (tree st)) ->
                 lookup x (tree st1) = lookup x (tree st)).
    { intros x N.
      pose proof (copy_loop_frame source replica sdir x _ st N) as F.
      now rewrite H1 in F. }
    assert (P2 : forall y, In y (common_dirs (dircmp sdir (tree st))) ->
              exists ssub rsub,
                lookup y sdir = Some (Dir ssub) /\
                lookup y (tree st1) = Some (Dir rsub) /\
                (depth (Dir ssub) <= fuel)%nat).
    { intros y Hy. pose proof Hy as C. apply In_common_dirs in C.
      destruct C as [_ [ssub [rsub [S R]]]]. exists ssub, rsub.
      rewrite F1.
      - pose proof (depth_lookup _ _ _ S). repeat split; auto. lia.
      - intros T. now apply to_copy_not_common_dirs in T. }
    pose proof (descend_loop_outcome fuel source replica sdir _ IH
                  (NoDup_common_dirs sdir (tree st)) st1 P2) as O2.
    destruct (for_each (descend fuel source replica sdir) _ st1)
      as [st2|e st2] eqn:H2; cbn [bind returns_or_denied].
    2:{ destruct O2 as [-> [y [rsub [Hy [L W]]]]]. split; [reflexivity|].
        rewrite F1 in L.
        - eapply locked_entry; eauto.
        - intros T. now apply to_copy_not_common_dirs in T. }
    assert (P3 : forall x, In x (right_only (dircmp sdir (tree st))) ->
                 lookup x (tree st2) <> None).
    { intros x Hx.
      assert (N1 : ~ In x (to_copy sdir (tree st))).
      { intros T. now apply to_copy_not_right_only in T. }
      assert (N2 : ~ In x (common_dirs (dircmp sdir (tree st)))).
      { intros T. now apply common_dirs_not_right_only in T. }
      pose proof (descend_loop_frame fuel source replica sdir x _ st1 N2)
        as F2.
      rewrite H2 in F2. simpl in F2. rewrite F2, (F1 x N1).
      apply In_right_only in Hx. tauto. }
    destruct (remove_loop_returns replica _
                (NoDup_right_only sdir (tree st)) st2 P3) as [st3 H3].
    rewrite H3. exact I.
Qed.

(** X8: with fuel above the depth of the source, the only exception that
    leaves a run is PermissionError, and then some file below the replica
    cannot be written.  copytree is never called on an existing path, copy2
    never on a directory or a missing file, and nothing is removed that is
    not there. *)
Theorem only_permission_error (fuel : nat) (source replica : string)
    (sdir : dir) (st st' : state) (e : exn) :
  (depth (Dir sdir) <= fuel)%nat ->
  sync_folders fuel source replica sdir st = Raise e st' ->
  e = PermissionError /\ all_writable (Dir (tree st)) = false.
Proof.
  intros D H. pose proof (run_outcome fuel source replica sdir st D) as O.
  rewrite H in O. exact O.
Qed.

Lemma only_permission_error_witness :
  PermissionError = PermissionError /\
  all_writable (Dir replica_nested) = false.
Proof.
  apply (only_permission_error 2 "data" "backup" source_nested
           {| tree := replica_nested; log := [] |}
           {| tree := put "a.txt" (File file_v1) replica_nested;
              log := [INFO "Copied file from data/a.txt to backup/a.txt"] |}
           PermissionError).
  - simpl. lia.
  - reflexivity.
Defined.

(** X9: when every file below the replica can be written, a run with fuel
    above the depth of the source returns. *)
Theorem writable_replica_returns (fuel : nat) (source replica : string)
    (sdir : dir) (st : state) :
  (depth (Dir sdir) <= fuel)%nat ->
  all_writable (Dir (tree st)) = true ->
  exists st', sync_folders fuel source replica sdir st = Ok st'.
Proof.
  intros D W. pose proof (run_outcome fuel source replica sdir st D) as O.
  destruct (sync_folders fuel source replica sdir st) as [st'|e st'].
  - eauto.
  - destruct O as [_ O]. congruence.
Qed.

Lemma writable_replica_returns_witness :
  exists st',
    sync_folders 3 "s" "r" source_tree {| tree := replica_tree; log := [] |}
    = Ok st'.
Proof.
  apply (writable_replica_returns 3 "s" "r" source_tree
           {| tree := replica_tree; log := [] |}).
  - simpl. lia.
  - reflexivity.
Defined.

(** ** An empty side *)

(** X10: the first mirror.  After a run on an empty replica that returns,
    the replica holds exactly the entries of the source that dircmp looks
    at, each as it is in the source, and nothing else: the names dircmp
    hides or ignores at this level are not copied. *)
Theorem empty_replica_filled (fuel : nat) (source replica : string)
    (sdir : dir) (lg : list record) (st' : state) (x : string) :
  sync_folders fuel source replica sdir {| tree := []; log := lg |} = Ok st' ->
  lookup x (tree st') = if visible x then lookup x sdir else None.
Proof.
  intros H. destruct fuel as [|fuel]; [discriminate|].
  set (st := {| tree := []; log := lg |}) in *.
  assert (C : common_dirs (dircmp sdir (tree st)) = []).
  { apply nothing_in. intros y I. apply In_common_dirs in I.
    destruct I as [_ [sa [sb [_ B]]]]. discriminate. }
  assert (R : right_only (dircmp sdir (tree st)) = []).
  { apply nothing_in. intros y I. apply In_right_only in I.
    destruct I as [_ [B _]]. now apply B. }
  pose proof (sync_folders_frame (S fuel) source replica sdir st x) as F.
  rewrite H in F. cbn [state_of] in F.
  destruct (visible x) eqn:V.
  - destruct (lookup x sdir) as [n|] eqn:Sx.
    + rewrite <- Sx. eapply sync_folders_copied; eauto.
      unfold to_copy. apply in_or_app. left. apply In_left_only.
      repeat split; congruence.
    + apply F.
      * intros T. apply to_copy_precondition in T. tauto.
      * now rewrite C.
      * now rewrite R.
  - apply F.
    + intros T. apply to_copy_visible in T. congruence.
    + now rewrite C.
    + now rewrite R.
Qed.

Lemma empty_replica_filled_witness :
  lookup ".git"
    (tree (state_of (sync_folders 1 "source" "replica"
                       [(".git", Dir []); ("a.txt", File file_v1)]
                       {| tree := []; log := [] |})))
  = if visible ".git"
    then lookup ".git" [(".git", Dir []); ("a.txt", File file_v1)]
    else None.
Proof.
  apply (empty_replica_filled 1 "source" "replica"
           [(".git", Dir []); ("a.txt", File file_v1)] []).
  reflexivity.
Defined.

(** X11: an empty source.  A run that returns has removed every entry of
    the replica that dircmp looks at and kept the entries whose names dircmp
    hides or ignores. *)
Theorem empty_source_clears (fuel : nat) (source replica : string)
    (st st' : state) (x : string) :
  sync_folders fuel source replica [] st = Ok st' ->
  lookup x (tree st') = if visible x then None else lookup x (tree st).
Proof.
  intros H. destruct fuel as [|fuel]; [discriminate|].
  assert (T : to_copy [] (tree st) = []).
  { apply nothing_in. intros y I. apply to_copy_precondition in I.
    destruct I as [I _]. now apply I. }
  assert (C : common_dirs (dircmp [] (tree st)) = []).
  { apply nothing_in. intros y I. apply In_common_dirs in I.
    destruct I as [_ [sa [sb [A _]]]]. discriminate. }
  destruct (in_dec string_dec x (right_only (dircmp [] (tree st)))) as [I | N].
  - pose proof I as V. apply In_right_only in V. destruct V as [V _].
    rewrite V. eapply sync_folders_removed; eauto.
  - pose proof (sync_folders_frame (S fuel) source replica [] st x) as F.
    rewrite H in F. cbn [state_of] in F.
    rewrite F; [| now rewrite T | now rewrite C | exact N].
    destruct (visible x) eqn:V; [|reflexivity].
    destruct (lookup x (tree st)) eqn:L; [|reflexivity].
    exfalso. apply N. apply In_right_only. repeat split; congruence.
Qed.

Lemma empty_source_clears_witness :
  lookup "stale.txt"
    (tree (state_of (sync_folders 1 "source" "replica" []
                       {| tree := replica_tree; log := [] |})))
  = if visible "stale.txt" then None else lookup "stale.txt" replica_tree.
Proof.
  apply (empty_source_clears 1 "source" "replica"
           {| tree := replica_tree; log := [] |}).
  reflexivity.
Defined.

(** ** Kinds that differ, before and after *)

Lemma in_closure (fuel : nat) (at_ : list string) (sdir rdir : dir)
    (p : list string) :
  In (Funny p) (full_closure (S fuel) at_ sdir rdir) <->
  (exists x, In x (common_funny (dircmp sdir rdir)) /\ p = (at_ ++ [x])%list) \/
  (exists x ssub rsub,
     In x (common_dirs (dircmp sdir rdir)) /\
     lookup x sdir = Some (Dir ssub) /\ lookup x rdir = Some (Dir rsub) /\
     In (Funny p) (full_closure fuel (at_ ++ [x]) ssub rsub)).
Proof.
  rewrite full_closure_S, !in_app_iff, !in_map_iff, in_flat_map. split.
  - intros [[x [E _]] | [[x [E _]] | [[x [E _]] | [[x [E I]] | [x [I F]]]]]];
      try discriminate.
    + left. exists x. split; [assumption | congruence].
    + right. pose proof I as C. apply In_common_dirs in C.
      destruct C as [_ [ssub [rsub [S R]]]]. rewrite S, R in F.
      exists x, ssub, rsub. auto.
  - intros [[x [I ->]] | [x [ssub [rsub [I [S [R F]]]]]]].
    + right; right; right; left. exists x. auto.
    + right; right; right; right. exists x. rewrite S, R. auto.
Qed.

(** X12: a run creates no mismatch of kinds.  Every name that the fresh
    comparison reports, after a run that returned, as a file on one side
    and a directory on the other was reported so by the comparison before
    the run, at the same place. *)
Theorem no_new_mismatch (fuel' : nat) :
  forall (fuel : nat) (source replica : string) (at_ : list string)
         (sdir : dir) (st st' : state) (p : list string),
  sync_folders fuel source replica sdir st = Ok st' ->
  In (Funny p) (full_closure fuel' at_ sdir (tree st')) ->
  In (Funny p) (full_closure fuel' at_ sdir (tree st)).
Proof.
  induction fuel' as [|fuel' IH];
    intros fuel source replica at_ sdir st st' p H I; [contradiction|].
  destruct fuel as [|fuel]; [discriminate|].
  apply in_closure in I. apply in_closure.
  destruct I as [[x [I ->]] | [x [ssub [rsub' [I [S [R F]]]]]]].
  - left. exists x. split; [|reflexivity].
    apply In_common_funny in I. apply In_common_funny.
    destruct I as [V K]. split; [assumption|].
    destruct (sync_folders_entry _ _ _ _ _ _ x H)
      as [[_ E] | [[_ [ssub [rsub [lg [st_sub [A [B [C E]]]]]]]]
         | [[_ E] | [_ [_ [_ E]]]]]].
    + exfalso.
      destruct K as [[f [sb [A B]]] | [sa [g [A B]]]]; congruence.
    + exfalso.
      destruct K as [[f [sb [A' B']]] | [sa [g [A' B']]]]; congruence.
    + exfalso.
      destruct K as [[f [sb [A B]]] | [sa [g [A B]]]]; congruence.
    + now rewrite <- E.
  - right. apply In_common_dirs in I. destruct I as [V _].
    destruct (synced_common_dirs _ _ _ _ _ _ x ssub rsub' H V S R)
      as [-> | [rsub [lg [st_sub [A [B ->]]]]]].
    + rewrite self_closure in F. contradiction.
    + exists x, ssub, rsub. repeat split; try assumption.
      * apply In_common_dirs. split; [assumption|]. eauto.
      * apply (IH fuel (join source x) (join replica x) (at_ ++ [x])%list
                 ssub {| tree := rsub; log := lg |} st_sub p B F).
Qed.

Lemma no_new_mismatch_witness :
  In (Funny ["x"]) (full_closure 2 [] source_x_file replica_x_dir).
Proof.
  apply (no_new_mismatch 2 2 "source" "replica" [] source_x_file
           {| tree := replica_x_dir; log := [] |}
           {| tree := replica_x_dir; log := [] |} ["x"]).
  - reflexivity.
  - simpl. auto.
Defined.

(** * Further properties of the process *)

(** ** Paths in the file system *)





Lemma lookup_path_removelast (p : list string) :
  forall n, lookup_path p n <> None -> lookup_path (removelast p) n <> None.
Proof.
  induction p as [|x p IH]; intros n H; [exact H|].
  destruct p as [|y p]; [simpl; discriminate|].
  change (removelast (x :: y :: p)) with (x :: removelast (y :: p)).
  cbn [lookup_path] in *. destruct n as [f|d]; [exact H|].
  destruct (lookup x d) as [n'|]; [|exact H]. now apply IH.
Qed.

(** Where the walk of os.stat arrives is the node that the components of
    the path name. *)
Lemma walk_components (fs : dir) (raw : list string) :
  forall at_ q,
  lookup_path at_ (Dir fs) <> None ->
  walk fs raw at_ = Some q ->
  q = fold_left
        (fun acc x =>
           if orb (String.eqb x "") (String.eqb x ".") then acc
           else if String.eqb x ".." then removelast acc
           else (acc ++ [x])%list)
        raw at_ /\
  lookup_path q (Dir fs) <> None.
Proof.
  induction raw as [|x raw IH]; intros at_ q E W; simpl in *.
  - injection W as <-. auto.
  - destruct (lookup_path at_ (Dir fs)) as [[f|d]|] eqn:L; try discriminate.
    assert (A : lookup_path at_ (Dir fs) <> None) by congruence.
    destruct (orb (String.eqb x "") (String.eqb x ".")).
    + apply IH; assumption.
    + destruct (String.eqb x "..").
      * apply IH; [|assumption]. now apply lookup_path_removelast.
      * destruct (lookup_path (at_ ++ [x]) (Dir fs)) eqn:N; [|discriminate].
        apply IH; [|assumption]. congruence.
Qed.

Lemma exists_components (fs : dir) (p : string) :
  os_path_exists fs p = true ->
  exists n, lookup_path (components p) (Dir fs) = Some n.
Proof.
  unfold os_path_exists, components.
  destruct (String.eqb p ""); [discriminate|].
  destruct (walk fs (split_sep p "") []) as [q|] eqn:W; [|discriminate].
  intros _. apply walk_components in W; [|simpl; discriminate].
  destruct W as [<- N].
  destruct (lookup_path q (Dir fs)) as [n|]; [eauto | congruence].
Qed.

(** ** The job *)



(** ** The loop *)

Lemma run_main_S (n : nat) (source replica : string) (interval : Z)
    (fs : dir) (now : Z) :
  run_main (S n) source replica interval fs now
  = loop_iteration source replica interval
      (run_main n source replica interval fs now).
Proof. reflexivity. Qed.





(** X15: the first run starts when the interval has passed, not before and
    not later: with an interval of at least one second, no run has been
    started after that many turns of the loop, and one has after the next
    turn. *)
Theorem first_run_at_interval (source replica : string) (interval : Z)
    (fs : dir) (now : Z) :
  stat (main source replica interval fs now) = Scheduling ->
  1 <= interval ->
  runs (run_main (Z.to_nat interval) source replica interval fs now) = O /\
  runs (run_main (S (Z.to_nat interval)) source replica interval fs now)
  = 1%nat.
Proof.
  intros H L.
  assert (W : run_main (Z.to_nat interval) source replica interval fs now
              = {| stat := Scheduling; clock := now + Z.of_nat (Z.to_nat interval);
                   next_run := now + interval; root := fs;
                   journal := [INFO "Starting initial synchronization."];
                   runs := O |}).
  { apply run_main_waiting; [assumption | lia]. }
  split; [now rewrite W|].
  rewrite run_main_S, W. unfold loop_iteration. cbn [stat next_run clock].
  destruct (Z.leb_spec (now + interval) (now + Z.of_nat (Z.to_nat interval)));
    [|lia].
  cbn [root journal runs]. destruct (job _ _ _ _); reflexivity.
Qed.

Lemma first_run_at_interval_witness :
  runs (run_main (Z.to_nat 3) "data" "mirror" 3 disk 0) = O /\
  runs (run_main (S (Z.to_nat 3)) "data" "mirror" 3 disk 0) = 1%nat.
Proof.
  apply (first_run_at_interval "data" "mirror" 3 disk 0).
  - reflexivity.
  - lia.
Defined.

Lemma registered_in_range (interval now : Z) :
  datetime_min <= now ->
  1 <= interval <= timedelta_max ->
  now + interval <= datetime_max ->
  every_seconds_do interval now = Registered (now + interval).
Proof.
  intros A B C. unfold every_seconds_do.
  destruct (Z.ltb_spec now datetime_min); [lia|].
  destruct (Z.ltb_spec datetime_max now); [lia|]. simpl.
  destruct (Z.ltb_spec interval 1); [lia|].
  destruct (Z.ltb_spec timedelta_max interval); [lia|].
  destruct (Z.ltb_spec datetime_max (now + interval)); [lia|].
  reflexivity.
Qed.

(** X16: the validation asks for paths that exist, not for directories.  A
    source or a replica that is a regular file passes it, when the other
    path exists, the two arguments differ and the job can be registered; the
    first run then raises NotADirectoryError when it lists the directory,
    and that ends the process, with nothing changed and nothing logged about
    it. *)
Theorem file_argument_crashes (source replica : string) (interval : Z)
    (fs : dir) (now : Z) :
  datetime_min <= now ->
  1 <= interval <= timedelta_max ->
  now + interval <= datetime_max ->
  os_path_exists fs source = true ->
  os_path_exists fs replica = true ->
  source <> replica ->
  (exists f, lookup_path (components source) (Dir fs) = Some (File f)) \/
  (exists f, lookup_path (components replica) (Dir fs) = Some (File f)) ->
  stat (main source replica interval fs now) = Scheduling /\
  run_main (S (Z.to_nat interval)) source replica interval fs now
  = {| stat := Crashed NotADirectoryError;
       clock := now + interval;
       next_run := now + interval;
       root := fs;
       journal := [INFO "Starting initial synchronization."];
       runs := 1 |}.
Proof.
  intros A B C Es Er N K.
  assert (H : stat (main source replica interval fs now) = Scheduling).
  { unfold main. rewrite (registered_in_range interval now A B C), Es, Er.
    apply String.eqb_neq in N. now rewrite N. }
  split; [exact H|].
  assert (J : job source replica fs [INFO "Starting initial synchronization."]
              = Raise NotADirectoryError
                  {| tree := fs;
                     log := [INFO "Starting initial synchronization."] |}).
  { unfold job. destruct (exists_components fs source Es) as [n Ln].
    rewrite Ln. destruct n as [f|s]; [reflexivity|].
    destruct K as [[f K] | [f K]]; [congruence|]. now rewrite K. }
  rewrite run_main_S, run_main_waiting by (assumption || lia).
  unfold loop_iteration. cbn [stat next_run clock root journal runs].
  destruct (Z.leb_spec (now + interval) (now + Z.of_nat (Z.to_nat interval)));
    [|lia].
  rewrite J. cbn [tree log]. f_equal. lia.
Qed.

Lemma file_argument_crashes_witness :
  stat (main "data/b.txt" "mirror" 3 disk 0) = Scheduling /\
  run_main (S (Z.to_nat 3)) "data/b.txt" "mirror" 3 disk 0
  = {| stat := Crashed NotADirectoryError;
       clock := 0 + 3;
       next_run := 0 + 3;
       root := disk;
       journal := [INFO "Starting initial synchronization."];
       runs := 1 |}.
Proof.
  apply (file_argument_crashes "data/b.txt" "mirror" 3 disk 0).
  - vm_compute. discriminate.
  - vm_compute. split; discriminate.
  - vm_compute. discriminate.
  - reflexivity.
  - reflexivity.
  - discriminate.
  - left. exists file_v2. reflexivity.
Defined.



